(** * Event resolution in the controller's GraphQL schema

    A shallow embedding of the resolvers of [controller/graphql.go]:
    the event type dispatch ([ResolveType], [decodeEventObjectData]),
    the [data] field of an event object, the [events] listings, the
    [app] field of a route, [createRelease], the [deploy_timeout] field
    of a deployment and [listArtifacts].

    Go values of type [interface{}] are modelled by one universe of
    dynamic values, run-time panics by an explicit outcome, and calls to
    the repositories behind [controllerAPI] by a log of calls. *)

From Stdlib Require Import ZArith String Ascii List Lia.
From stdpp Require Import base option list gmap strings.

Local Open Scope string_scope.
Local Open Scope Z_scope.
Set Warnings "-register-all".

(** ** The Go run time *)

Module Go.

(** The run-time panics the modelled code can raise. *)
Inductive panic : Type :=
| InterfaceConversion   (* x.(T) on a value whose dynamic type is not T *)
| NilDereference        (* field access through a nil pointer *)
| IndexOutOfRange.      (* s[i] with i >= len(s) *)

(** A Go call either returns or panics. *)
Inductive outcome (A : Type) : Type :=
| Return (a : A)
| Panic (p : panic).
Arguments Return {A} a.
Arguments Panic {A} p.

(** [int64(n)]: two's complement wrap-around of an integer. *)
Definition int64 (n : Z) : Z := (n + 2 ^ 63) mod 2 ^ 64 - 2 ^ 63.

(** [strings.HasPrefix(s, prefix)]. *)
Fixpoint HasPrefix (s prefix : string) {struct prefix} : bool :=
  match prefix with
  | EmptyString => true
  | String c prefix' =>
      match s with
      | EmptyString => false
      | String d s' => if Ascii.eqb c d then HasPrefix s' prefix' else false
      end
  end.

(** [s[n:]] for [n <= len(s)]. *)
Fixpoint dropBytes (n : nat) (s : string) : string :=
  match n, s with
  | O, _ => s
  | S n', String _ s' => dropBytes n' s'
  | S _, EmptyString => EmptyString
  end.

(** [strings.TrimPrefix(s, prefix)]. *)
Definition TrimPrefix (s prefix : string) : string :=
  if HasPrefix s prefix then dropBytes (String.length prefix) s else s.

End Go.
Import Go.

(** ** Types of [controller/types] and [router/types] *)

(** [type EventType string]. *)
Definition EventType : Type := string.

(** Modelled from the spec: the values of the [ct.EventType...] constants,
    which are declared in [controller/types]; the names are those of the
    enumeration of the data model. *)
Definition EventTypeApp : EventType := "app".
Definition EventTypeAppDeletion : EventType := "app-deletion".
Definition EventTypeAppRelease : EventType := "app-release".
Definition EventTypeDeployment : EventType := "deployment".
Definition EventTypeJob : EventType := "job".
Definition EventTypeScale : EventType := "scale".
Definition EventTypeRelease : EventType := "release".
Definition EventTypeReleaseDeletion : EventType := "release-deletion".
Definition EventTypeArtifact : EventType := "artifact".
Definition EventTypeProvider : EventType := "provider".
Definition EventTypeResource : EventType := "resource".
Definition EventTypeResourceDeletion : EventType := "resource-deletion".
Definition EventTypeResourceAppDeletion : EventType := "resource-app-deletion".
Definition EventTypeRoute : EventType := "route".
Definition EventTypeRouteDeletion : EventType := "route-deletion".
Definition EventTypeDomainMigration : EventType := "domain-migration".
Definition EventTypeClusterBackup : EventType := "cluster-backup".
Definition EventTypeAppGarbageCollection : EventType := "app-garbage-collection".

(** The closed enumeration, in the order of [eventObjectTypeEnum]. *)
Definition eventTypes : list EventType :=
  [ EventTypeApp; EventTypeAppDeletion; EventTypeAppRelease;
    EventTypeDeployment; EventTypeJob; EventTypeScale; EventTypeRelease;
    EventTypeReleaseDeletion; EventTypeArtifact; EventTypeProvider;
    EventTypeResource; EventTypeResourceDeletion;
    EventTypeResourceAppDeletion; EventTypeRoute; EventTypeRouteDeletion;
    EventTypeDomainMigration; EventTypeClusterBackup;
    EventTypeAppGarbageCollection ].

(** The struct types the modelled code names. *)
Inductive GoType : Type :=
| TApp | TAppDeletionEvent | TAppRelease | TDeploymentEvent | TJob | TScale
| TRelease | TReleaseDeletionEvent | TArtifact | TProvider | TResource
| TRoute | TDomainMigration | TClusterBackup | TAppGarbageCollectionEvent
| TDeployment | TEvent.

(** [json.RawMessage] is a byte slice. *)
Definition RawMessage : Type := list Byte.byte.

(** [ct.ReleaseDeletion]. *)
Record ReleaseDeletion : Type := {
  rdAppID : string;
  rdReleaseID : string;
  rdRemainingApps : list string;
  rdDeletedFiles : list string;
}.

(** [ct.ReleaseDeletionEvent]; the nested record is held by pointer
    (the [release_deletion] field hands it to resolvers that take a
    [*ct.ReleaseDeletion]), [None] is the nil pointer. *)
Record ReleaseDeletionEvent : Type := {
  rdeReleaseDeletion : option ReleaseDeletion;
  rdeError : string;
}.

(** [ct.Event], the fields the resolvers read. *)
Record Event : Type := {
  evID : Z;
  evAppID : string;
  evObjectType : EventType;
  evObjectID : string;
  evData : RawMessage;
}.

(** [ct.Deployment], the string and integer fields. *)
Record Deployment : Type := {
  dID : string;
  dAppID : string;
  dOldReleaseID : string;
  dNewReleaseID : string;
  dStrategy : string;
  dStatus : string;
  dDeployTimeout : Z;
}.

(** [router.Route], the fields of the parent reference. *)
Record Route : Type := {
  rtID : string;
  rtParentRef : string;
}.

(** Go [error] values the modelled code creates or passes on. *)
Inductive error : Type :=
| InvalidEventTypeError (typ : EventType) (* fmt.Errorf("Invalid EventType: %s", typ) *)
| InvalidUnmarshalError (t : GoType)      (* json: Unmarshal(non-pointer T) *)
| JSONError (msg : string)                (* any other error of encoding/json *)
| RepoError (msg : string).               (* an error of a repository *)

Definition GoType_eq_dec (a b : GoType) : {a = b} + {a <> b}.
Proof. decide equality. Defined.

Set Implicit Arguments.

Section Controller.

(** The contents of the [controller/types] structs whose fields the
    modelled code never reads, and [ct.ProcessType]. *)
Variables (Fields ProcessType : Type).

(** [ct.Release], the fields [createRelease] fills. *)
Record Release : Type := {
  relID : string;
  relArtifactIDs : list string;
  relEnv : gmap string string;
  relMeta : gmap string string;
  relProcesses : gmap string ProcessType;
}.

(** [ct.App]: its ID and the remaining fields. *)
Record App : Type := {
  appID : string;
  appFields : Fields;
}.

(** The contents of a struct of each type. *)
Definition StructOf (t : GoType) : Type :=
  match t with
  | TApp => App
  | TReleaseDeletionEvent => ReleaseDeletionEvent
  | TRelease => Release
  | TDeployment => Deployment
  | TRoute => Route
  | TEvent => Event
  | _ => Fields
  end.

(** Values of type [interface{}], by dynamic type. *)
Inductive value : Type :=
| VNil                                             (* nil *)
| VInt (n : Z)                                     (* int *)
| VString (s : string)                             (* string *)
| VList (l : list value)                           (* []interface{} *)
| VStringMap (m : gmap string string)              (* map[string]string *)
| VPtr (t : GoType) (s : StructOf t)               (* *T, not nil *)
| VStruct (t : GoType) (s : StructOf t)            (* T *)
| VPtrSlice (t : GoType) (l : list (option (StructOf t))). (* []*T *)

(** [p, ok := v.( *T)]. *)
Definition asPtr (t : GoType) (v : value) : option (StructOf t) :=
  match v with
  | VPtr t' s =>
      match GoType_eq_dec t' t with
      | left e => Some (eq_rect t' StructOf s t e)
      | right _ => None
      end
  | _ => None
  end.

(** [v.( *T)], which panics when the dynamic type differs. *)
Definition mustPtr (t : GoType) (v : value) : outcome (StructOf t) :=
  match asPtr t v with
  | Some s => Return s
  | None => Panic InterfaceConversion
  end.

(** What [Resolve] functions return: [(interface{}, error)]. *)
Definition resolved : Type := value * option error.

(** *** [encoding/json]

    The library is taken as given: [checkValid] is the scan for
    well-formed input, [decode t] fills a fresh [T{}] through a
    pointer, [Marshal] is [json.Marshal] and [decodeProcesses] fills a
    [map[string]ct.ProcessType]. *)
Record jsonCodec : Type := {
  checkValid : RawMessage -> option error;
  decode : forall t : GoType, RawMessage -> StructOf t + error;
  Marshal : value -> RawMessage + error;
  decodeProcesses : RawMessage -> gmap string ProcessType + error;
}.

Variable json : jsonCodec.

(** The second argument of [json.Unmarshal] in [decodeEventObjectData]:
    a pointer to a fresh struct, [&T{}], or a fresh struct, [T{}]. *)
Inductive target : Type :=
| NewPtr (t : GoType)
| NewStruct (t : GoType).

Definition targetType (obj : target) : GoType :=
  match obj with NewPtr t | NewStruct t => t end.

(** [json.Unmarshal(data, obj)]: the input is scanned first, then a
    target that is not a pointer is refused, then the struct is
    filled.  On success the result is [obj] after the call. *)
Definition Unmarshal (data : RawMessage) (obj : target) : value + error :=
  match checkValid json data with
  | Some e => inr e
  | None =>
      match obj with
      | NewPtr t =>
          match decode json t data with
          | inl s => inl (VPtr t s)
          | inr e => inr e
          end
      | NewStruct t => inr (InvalidUnmarshalError t)
      end
  end.

(** [json.Unmarshal(b, &release.Processes)]. *)
Definition UnmarshalProcesses (b : RawMessage)
  : gmap string ProcessType + error :=
  match checkValid json b with
  | Some e => inr e
  | None => decodeProcesses json b
  end.

(** ** The event type dispatch *)

(** The [switch typ] of [decodeEventObjectData]; [None] is the
    [default] case. *)
Definition decodeTarget (typ : EventType) : option target :=
  if String.eqb typ EventTypeApp then Some (NewPtr TApp)
  else if String.eqb typ EventTypeAppDeletion then Some (NewPtr TAppDeletionEvent)
  else if String.eqb typ EventTypeAppRelease then Some (NewPtr TAppRelease)
  else if String.eqb typ EventTypeDeployment then Some (NewPtr TDeploymentEvent)
  else if String.eqb typ EventTypeJob then Some (NewPtr TJob)
  else if String.eqb typ EventTypeScale then Some (NewPtr TScale)
  else if String.eqb typ EventTypeRelease then Some (NewPtr TRelease)
  else if String.eqb typ EventTypeReleaseDeletion then Some (NewPtr TReleaseDeletionEvent)
  else if String.eqb typ EventTypeArtifact then Some (NewPtr TArtifact)
  else if String.eqb typ EventTypeProvider then Some (NewPtr TProvider)
  else if String.eqb typ EventTypeResource then Some (NewPtr TResource)
  else if String.eqb typ EventTypeResourceDeletion then Some (NewPtr TResource)
  else if String.eqb typ EventTypeResourceAppDeletion then Some (NewPtr TResource)
  else if String.eqb typ EventTypeRoute then Some (NewStruct TRoute)
  else if String.eqb typ EventTypeRouteDeletion then Some (NewStruct TRoute)
  else if String.eqb typ EventTypeDomainMigration then Some (NewPtr TDomainMigration)
  else if String.eqb typ EventTypeClusterBackup then Some (NewPtr TClusterBackup)
  else if String.eqb typ EventTypeAppGarbageCollection then Some (NewPtr TAppGarbageCollectionEvent)
  else None.

(** [decodeEventObjectData]. *)
Definition decodeEventObjectData (typ : EventType) (data : RawMessage)
  : resolved :=
  match decodeTarget typ with
  | None => (VNil, Some (InvalidEventTypeError typ))
  | Some obj =>
      match Unmarshal data obj with
      | inr err => (VNil, Some err)
      | inl obj' => (obj', None)
      end
  end.

(** ** Collaborators

    Every call to a repository is logged; what a repository answers is
    given by the [controllerAPI] at hand. *)

Inductive Call : Type :=
| AppRepoGet (id : string)
| ArtifactRepoListIDs (ids : list string)
| EventRepoListEvents (appID : string) (objectTypes : list string)
    (objectID : string) (beforeID sinceID : option Z) (count : Z)
| ReleaseRepoAdd (release : Release).

(** The repositories of [controllerAPI] that the modelled resolvers
    reach.  [releaseRepo.Add] fills in the release it is given through
    the pointer: its answer is the release after the call and the
    error. *)
Record controllerAPI : Type := {
  appRepoGet : string -> resolved;
  artifactRepoListIDs :
    list string -> gmap string (option (StructOf TArtifact)) * option error;
  eventRepoListEvents :
    string -> list string -> string -> option Z -> option Z -> Z ->
    list (option Event) * option error;
  releaseRepoAdd : Release -> Release * option error;
}.

(** A run of a resolver: the repository calls made, in order, and how
    the run ended. *)
Record run (A : Type) : Type := Run {
  calls : list Call;
  result : outcome A;
}.
Arguments Run {A} calls result.
Arguments calls {A} r.
Arguments result {A} r.

Definition ret {A} (a : A) : run A := Run [] (Return a).
Definition raise {A} (p : panic) : run A := Run [] (Panic p).
Definition call {A} (c : Call) (answer : A) : run A := Run [c] (Return answer).
Definition lift {A} (o : outcome A) : run A := Run [] o.

Definition bind {A B} (m : run A) (k : A -> run B) : run B :=
  match result m with
  | Panic p => Run (calls m) (Panic p)
  | Return a => let r := k a in Run (calls m ++ calls r) (result r)
  end.

Notation "x <- m ;; k" := (bind m (fun x => k))
  (at level 100, m at next level, right associativity).

(** ** [ResolveType] of the event interface *)

(** A [graphql.Object]: an entity object, or an event object made by
    [newEventObject] from a name and the object of its [data] field. *)
Inductive Object : Type :=
| EntityObject (name : string)
| EventObject (name : string) (dataType : Object).

Definition newEventObject (name : string) (dataType : Object) : Object :=
  EventObject name dataType.

(** The [*graphql.Object] variables declared before [eventInterface];
    [None] is nil. *)
Record eventObjects : Type := {
  eventAppObject : option Object;
  eventAppDeletionObject : option Object;
  eventAppReleaseObject : option Object;
  eventDeploymentObject : option Object;
  eventJobObject : option Object;
  eventScaleObject : option Object;
  eventReleaseObject : option Object;
  eventReleaseDeletionObject : option Object;
  eventArtifactObject : option Object;
  eventProviderObject : option Object;
  eventResourceObject : option Object;
  eventRouteObject : option Object;
  eventDomainMigrationObject : option Object;
  eventClusterBackupObject : option Object;
  eventAppGarbageCollectionObject : option Object;
}.

(** The variables once [init] has run its assignments. *)
Definition initEventObjects : eventObjects := {|
  eventAppObject := Some (newEventObject "EventApp" (EntityObject "App"));
  eventAppDeletionObject :=
    Some (newEventObject "EventAppDeletion" (EntityObject "AppDeletionEvent"));
  eventAppReleaseObject :=
    Some (newEventObject "EventAppRelease" (EntityObject "AppRelease"));
  eventDeploymentObject :=
    Some (newEventObject "EventDeployment" (EntityObject "DeploymentEvent"));
  eventJobObject := Some (newEventObject "EventJob" (EntityObject "Job"));
  eventScaleObject := Some (newEventObject "EventScale" (EntityObject "Scale"));
  eventReleaseObject := Some (newEventObject "EventRelease" (EntityObject "Release"));
  eventReleaseDeletionObject :=
    Some (newEventObject "EventReleaseDeletion" (EntityObject "ReleaseDeletionEvent"));
  eventArtifactObject := Some (newEventObject "EventArtifact" (EntityObject "Artifact"));
  eventProviderObject := Some (newEventObject "EventProvider" (EntityObject "Provider"));
  eventResourceObject := Some (newEventObject "EventResource" (EntityObject "Resource"));
  eventRouteObject := Some (newEventObject "EventRoute" (EntityObject "Route"));
  eventDomainMigrationObject :=
    Some (newEventObject "EventDomainMigration" (EntityObject "DomainMigration"));
  eventClusterBackupObject :=
    Some (newEventObject "EventClusterBackup" (EntityObject "ClusterBackup"));
  eventAppGarbageCollectionObject :=
    Some (newEventObject "EventAppGarbageCollection"
            (EntityObject "AppGarbageCollection"));
|}.

(** The [switch event.ObjectType] of [ResolveType]. *)
Definition resolveTypeSwitch (vars : eventObjects) (typ : EventType)
  : option Object :=
  if String.eqb typ EventTypeApp then eventAppObject vars
  else if String.eqb typ EventTypeAppDeletion then eventAppDeletionObject vars
  else if String.eqb typ EventTypeAppRelease then eventAppReleaseObject vars
  else if String.eqb typ EventTypeDeployment then eventDeploymentObject vars
  else if String.eqb typ EventTypeJob then eventJobObject vars
  else if String.eqb typ EventTypeScale then eventScaleObject vars
  else if String.eqb typ EventTypeRelease then eventReleaseObject vars
  else if String.eqb typ EventTypeReleaseDeletion then eventReleaseDeletionObject vars
  else if String.eqb typ EventTypeArtifact then eventArtifactObject vars
  else if String.eqb typ EventTypeProvider then eventProviderObject vars
  else if String.eqb typ EventTypeResource then eventResourceObject vars
  else if String.eqb typ EventTypeResourceDeletion then eventResourceObject vars
  else if String.eqb typ EventTypeResourceAppDeletion then eventResourceObject vars
  else if String.eqb typ EventTypeRoute then eventRouteObject vars
  else if String.eqb typ EventTypeRouteDeletion then eventRouteObject vars
  else if String.eqb typ EventTypeDomainMigration then eventDomainMigrationObject vars
  else if String.eqb typ EventTypeClusterBackup then eventClusterBackupObject vars
  else if String.eqb typ EventTypeAppGarbageCollection
       then eventAppGarbageCollectionObject vars
  else None.

(** [ResolveType]: [event := p.Value.( *ct.Event)], then the switch. *)
Definition ResolveType (vars : eventObjects) (v : value)
  : outcome (option Object) :=
  match mustPtr TEvent v with
  | Panic p => Panic p
  | Return event => Return (resolveTypeSwitch vars (evObjectType event))
  end.

(** ** Field resolvers *)

(** [p.Args], a [map[string]interface{}]. *)
Definition Args : Type := gmap string value.

(** The [xFieldResolveFunc] wrappers: the resolver runs when
    [p.Source] is a [*T], else the field is [nil, nil].  The context
    of a request always carries the [controllerAPI]
    ([GraphQLHandler] puts it there), so it is passed directly. *)
Definition fieldResolveFunc (t : GoType)
    (fn : controllerAPI -> StructOf t -> run resolved)
    (api : controllerAPI) (source : value) : run resolved :=
  match asPtr t source with
  | Some s => fn api s
  | None => ret (VNil, None)
  end.

Definition eventFieldResolveFunc := fieldResolveFunc TEvent.
Definition routeFieldResolveFunc := fieldResolveFunc TRoute.
Definition deploymentFieldResolveFunc := fieldResolveFunc TDeployment.
Definition releaseFieldResolveFunc := fieldResolveFunc TRelease.

(** *** The [data] field of an event object *)

(** [rd.AppID = appID] through the pointer [rd]. *)
Definition setAppID (rd : ReleaseDeletion) (appID : string) : ReleaseDeletion :=
  {| rdAppID := appID;
     rdReleaseID := rdReleaseID rd;
     rdRemainingApps := rdRemainingApps rd;
     rdDeletedFiles := rdDeletedFiles rd |}.

(** The body of the [data] resolver of [newEventObject].  [data] and
    the nested record are reached through pointers, so the assignment
    to [rd.AppID] shows in the value returned. *)
Definition eventData (event : Event) : outcome resolved :=
  let '(data, err) :=
    decodeEventObjectData (evObjectType event) (evData event) in
  if String.eqb (evObjectType event) EventTypeReleaseDeletion then
    match mustPtr TReleaseDeletionEvent data with
    | Panic p => Panic p
    | Return rde =>
        match rdeReleaseDeletion rde with
        | None => Panic NilDereference
        | Some rd =>
            if String.eqb (rdAppID rd) ""
               && negb (String.eqb (evAppID event) "")
            then Return (VPtr TReleaseDeletionEvent
                           {| rdeReleaseDeletion :=
                                Some (setAppID rd (evAppID event));
                              rdeError := rdeError rde |}, err)
            else Return (data, err)
        end
    end
  else Return (data, err).

Definition eventDataResolve : controllerAPI -> value -> run resolved :=
  eventFieldResolveFunc (fun _ event => lift (eventData event)).

(** *** The [app] field of a route *)

(** [ct.RouteParentRefPrefix], declared in [controller/types]. *)
Variable RouteParentRefPrefix : string.

Definition routeApp (api : controllerAPI) (r : Route) : run resolved :=
  if HasPrefix (rtParentRef r) RouteParentRefPrefix then
    let appID := TrimPrefix (rtParentRef r) RouteParentRefPrefix in
    call (AppRepoGet appID) (appRepoGet api appID)
  else ret (VNil, None).

Definition routeAppResolve : controllerAPI -> value -> run resolved :=
  routeFieldResolveFunc routeApp.

(** *** The [deploy_timeout] field of a deployment *)

Definition deploymentDeployTimeout (_ : controllerAPI) (d : Deployment)
  : run resolved :=
  ret (VString (dStatus d), None).

Definition deploymentDeployTimeoutResolve
  : controllerAPI -> value -> run resolved :=
  deploymentFieldResolveFunc deploymentDeployTimeout.

(** The sibling [status] field, for comparison. *)
Definition deploymentStatus (_ : controllerAPI) (d : Deployment)
  : run resolved :=
  ret (VString (dStatus d), None).

(** *** [listArtifacts] and the [artifacts] field of a release *)

Definition Artifact : Type := StructOf TArtifact.

(** The loop [for i, id := range artifactIDs { artifacts[i] =
    artifactMap[id] }], from index [i] on; a key the map lacks reads
    as the nil pointer, a store past the end of [artifacts] panics. *)
Fixpoint fillArtifacts (artifactMap : gmap string (option Artifact))
    (i : nat) (artifactIDs : list string)
    (artifacts : list (option Artifact))
  : outcome (list (option Artifact)) :=
  match artifactIDs with
  | [] => Return artifacts
  | id :: rest =>
      if Nat.ltb i (length artifacts) then
        fillArtifacts artifactMap (S i) rest
          (<[i := default None (artifactMap !! id)]> artifacts)
      else Panic IndexOutOfRange
  end.

(** [listArtifacts]; the nil slice of the error case is the empty
    list. *)
Definition listArtifacts (api : controllerAPI) (artifactIDs : list string)
  : run (list (option Artifact) * option error) :=
  answer <- call (ArtifactRepoListIDs artifactIDs)
                 (artifactRepoListIDs api artifactIDs);;
  let '(artifactMap, err) := answer in
  match err with
  | Some e => ret ([], Some e)
  | None =>
      artifacts <- lift (fillArtifacts artifactMap 0 artifactIDs
                           (replicate (size artifactMap) None));;
      ret (artifacts, None)
  end.

Definition releaseArtifacts (api : controllerAPI) (release : Release)
  : run resolved :=
  if Nat.eqb (length (relArtifactIDs release)) 0 then
    ret (VPtrSlice TArtifact [], None)
  else
    listed <- listArtifacts api (relArtifactIDs release);;
    ret (VPtrSlice TArtifact (fst listed), snd listed).

Definition releaseArtifactsResolve : controllerAPI -> value -> run resolved :=
  releaseFieldResolveFunc releaseArtifacts.

(** *** Arguments of the [events] fields and of [createRelease] *)

(** [if i, ok := p.Args[name]; ok { if id, ok := i.(int); ok { id64 :=
    int64(id); x = &id64 } }]: the cursor stays nil unless the
    argument is there and is an [int]. *)
Definition cursorArg (args : Args) (name : string) : option Z :=
  match args !! name with
  | Some (VInt id) => Some (int64 id)
  | _ => None
  end.

(** The same for [count], which stays 0. *)
Definition countArg (args : Args) : Z :=
  match args !! "count" with
  | Some (VInt n) => n
  | _ => 0
  end.

(** [for _, v := range list { ... v.(string) ... }]. *)
Fixpoint stringsOf (l : list value) : outcome (list string) :=
  match l with
  | [] => Return []
  | VString s :: rest =>
      match stringsOf rest with
      | Return ss => Return (s :: ss)
      | Panic p => Panic p
      end
  | _ :: _ => Panic InterfaceConversion
  end.

(** [if i, ok := p.Args[name]; ok { ... i.([]interface{}) ... }]. *)
Definition stringListArg (args : Args) (name : string)
  : outcome (list string) :=
  match args !! name with
  | None => Return []
  | Some (VList l) => stringsOf l
  | Some _ => Panic InterfaceConversion
  end.

(** [if i, ok := p.Args[name]; ok { x = i.(string) }]. *)
Definition stringArg (args : Args) (name : string) : outcome string :=
  match args !! name with
  | None => Return ""
  | Some (VString s) => Return s
  | Some _ => Panic InterfaceConversion
  end.

(** [if v, ok := p.Args[name]; ok { x = v.(map[string]string) }]. *)
Definition stringMapArg (args : Args) (name : string)
  : outcome (gmap string string) :=
  match args !! name with
  | None => Return ∅
  | Some (VStringMap m) => Return m
  | Some _ => Panic InterfaceConversion
  end.

(** *** The [events] fields *)

(** What both listings do once the app ID is known. *)
Definition listEvents (api : controllerAPI) (appID : string) (args : Args)
  : run resolved :=
  let beforeID := cursorArg args "before_id" in
  let sinceID := cursorArg args "since_id" in
  let count := countArg args in
  objectTypes <- lift (stringListArg args "object_types");;
  objectID <- lift (stringArg args "object_id");;
  listed <- call (EventRepoListEvents appID objectTypes objectID
                    beforeID sinceID count)
                 (eventRepoListEvents api appID objectTypes objectID
                    beforeID sinceID count);;
  ret (VPtrSlice TEvent (fst listed), snd listed).

(** [events] of [RootQuery]. *)
Definition rootEventsResolve (api : controllerAPI) (args : Args)
  : run resolved :=
  appID <- lift (stringArg args "app_id");;
  listEvents api appID args.

(** [events] of the app object. *)
Definition appEventsResolve (api : controllerAPI) (source : value)
    (args : Args) : run resolved :=
  match asPtr TApp source with
  | None => ret (VNil, None)
  | Some app => listEvents api (appID app) args
  end.

(** *** [createRelease] *)

(** The [processes] argument: [json.Marshal], then [json.Unmarshal]
    into a fresh map; the error of either is returned. *)
Definition processesArg (args : Args) : gmap string ProcessType + error :=
  match args !! "processes" with
  | None => inl ∅
  | Some v =>
      match Marshal json v with
      | inr err => inr err
      | inl b => UnmarshalProcesses b
      end
  end.

Definition createReleaseResolve (api : controllerAPI) (args : Args)
  : run resolved :=
  id <- lift (stringArg args "id");;
  artifacts <- lift (stringListArg args "artifacts");;
  env <- lift (stringMapArg args "env");;
  meta <- lift (stringMapArg args "meta");;
  match processesArg args with
  | inr err => ret (VNil, Some err)
  | inl processes =>
      let release :=
        {| relID := id; relArtifactIDs := artifacts; relEnv := env;
           relMeta := meta; relProcesses := processes |} in
      added <- call (ReleaseRepoAdd release) (releaseRepoAdd api release);;
      ret (VPtr TRelease (fst added), snd added)
  end.

End Controller.

Arguments VNil {Fields ProcessType}.
Arguments VInt {Fields ProcessType} n.
Arguments VString {Fields ProcessType} s.
Arguments VList {Fields ProcessType} l.
Arguments VStringMap {Fields ProcessType} m.
Arguments VPtr {Fields ProcessType} t s.
Arguments VStruct {Fields ProcessType} t s.
Arguments VPtrSlice {Fields ProcessType} t l.
Arguments AppRepoGet {ProcessType} id.
Arguments ArtifactRepoListIDs {ProcessType} ids.
Arguments EventRepoListEvents {ProcessType} appID objectTypes objectID
  beforeID sinceID count.
Arguments ret {ProcessType A} a.
Arguments raise {ProcessType A} p.
Arguments lift {ProcessType A} o.
Arguments fillArtifacts {Fields ProcessType} artifactMap i artifactIDs artifacts.

(** ** Sample collaborators

    A small codec and small repositories, on which the theorems below
    are run at concrete inputs. *)

Definition bytes (s : string) : RawMessage := list_byte_of_string s.

#[local] Instance byte_eq_decision : EqDecision Byte.byte := Byte.byte_eq_dec.

Definition stubRelease : Release unit := {|
  relID := ""; relArtifactIDs := []; relEnv := ∅; relMeta := ∅;
  relProcesses := ∅ |}.

(** The payload [{}] decodes to the zero struct; two more payloads of a
    release deletion carry a nested record, without and with an app. *)
Definition stubDecode (t : GoType) (data : RawMessage)
  : StructOf unit unit t + error :=
  let zero : StructOf unit unit t :=
    match t return StructOf unit unit t with
    | TApp => {| appID := ""; appFields := tt |}
    | TReleaseDeletionEvent => {| rdeReleaseDeletion := None; rdeError := "" |}
    | TRelease => stubRelease
    | TDeployment =>
        {| dID := ""; dAppID := ""; dOldReleaseID := ""; dNewReleaseID := "";
           dStrategy := ""; dStatus := ""; dDeployTimeout := 0 |}
    | TRoute => {| rtID := ""; rtParentRef := "" |}
    | TEvent =>
        {| evID := 0; evAppID := ""; evObjectType := ""; evObjectID := "";
           evData := [] |}
    | _ => tt
    end in
  let nested (app : string) : ReleaseDeletionEvent :=
    {| rdeReleaseDeletion :=
         Some {| rdAppID := app; rdReleaseID := "r1";
                 rdRemainingApps := []; rdDeletedFiles := [] |};
       rdeError := "" |} in
  if decide (data = bytes "{}") then inl zero
  else
    match t return StructOf unit unit t + error with
    | TReleaseDeletionEvent =>
        if decide (data = bytes "{r1}") then inl (nested "")
        else if decide (data = bytes "{r1,a2}") then inl (nested "a2")
        else inr (JSONError "cannot unmarshal")
    | _ => inr (JSONError "cannot unmarshal")
    end.

(** Input is well formed when it opens with a brace or a bracket. *)
Definition stubCheckValid (data : RawMessage) : option error :=
  match data with
  | Byte.x7b :: _ | Byte.x5b :: _ => None
  | _ => Some (JSONError "invalid character")
  end.

Definition stubCodec : jsonCodec unit unit := {|
  checkValid := stubCheckValid;
  decode := stubDecode;
  Marshal := fun v =>
    match v with
    | VString _ => inl (bytes "[]")
    | _ => inl (bytes "{}")
    end;
  decodeProcesses := fun b =>
    if decide (b = bytes "{}") then inl ∅
    else inr (JSONError "cannot unmarshal array");
|}.

(** Repositories: every app exists, the artifacts [a1] and [a2] exist,
    there are no events, and a release is stored as it is. *)
Definition stubAPI : controllerAPI unit unit := {|
  appRepoGet := fun id => (VPtr TApp {| appID := id; appFields := tt |}, None);
  artifactRepoListIDs := fun ids =>
    (list_to_map
       (omap (fun id => if decide (id = "a1" \/ id = "a2")
                        then Some (id, Some tt) else None) ids),
     None);
  eventRepoListEvents := fun _ _ _ _ _ _ => ([], None);
  releaseRepoAdd := fun r => (r, None);
|}.

(** ** Further resolvers over the same repositories *)

Definition error_eq_dec (a b : error) : {a = b} + {a <> b}.
Proof. decide equality; solve [ apply string_dec | apply GoType_eq_dec ]. Defined.

Section Relations.

Variables (Fields ProcessType : Type).

Notation "x <- m ;; k" := (bind m (fun x => k))
  (at level 100, m at next level, right associativity).

(** [ErrNotFound], a package variable declared outside this file. *)
Variable ErrNotFound : error.

(** The [app] field of an event object. *)
Definition eventApp (api : controllerAPI Fields ProcessType) (event : Event)
  : run ProcessType (resolved Fields ProcessType) :=
  if String.eqb (evAppID event) "" then ret (VNil, None)
  else call (AppRepoGet (evAppID event)) (appRepoGet api (evAppID event)).

Definition eventAppResolve
  : controllerAPI Fields ProcessType -> value Fields ProcessType ->
    run ProcessType (resolved Fields ProcessType) :=
  eventFieldResolveFunc eventApp.

(** The [app] field of a deployment: [err == ErrNotFound] turns into
    an absent app. *)
Definition deploymentApp (api : controllerAPI Fields ProcessType)
    (d : Deployment) : run ProcessType (resolved Fields ProcessType) :=
  answer <- call (AppRepoGet (dAppID d)) (appRepoGet api (dAppID d));;
  let '(app, err) := answer in
  match err with
  | Some e => if error_eq_dec e ErrNotFound then ret (VNil, None)
              else ret (app, err)
  | None => ret (app, err)
  end.

Definition deploymentAppResolve
  : controllerAPI Fields ProcessType -> value Fields ProcessType ->
    run ProcessType (resolved Fields ProcessType) :=
  deploymentFieldResolveFunc deploymentApp.

(** The loop of the [remaining_apps] field of a release deletion, from
    index [i] on: [app, err := api.appRepo.Get(appID)], a return on the
    first error, and [apps[i] = app.( *ct.App)]. *)
Fixpoint remainingAppsLoop (api : controllerAPI Fields ProcessType)
    (i : nat) (appIDs : list string) (apps : list (option (App Fields)))
  : run ProcessType (resolved Fields ProcessType) :=
  match appIDs with
  | [] => ret (VPtrSlice TApp apps, None)
  | id :: rest =>
      answer <- call (AppRepoGet id) (appRepoGet api id);;
      match snd answer with
      | Some err => ret (VNil, Some err)
      | None =>
          app <- lift (mustPtr TApp (fst answer));;
          if Nat.ltb i (length apps) then
            remainingAppsLoop api (S i) rest (<[i := Some app]> apps)
          else raise IndexOutOfRange
      end
  end.

(** The [remaining_apps] field: [apps := make([]*ct.App,
    len(rd.RemainingApps))], then the loop. *)
Definition releaseDeletionRemainingApps
    (api : controllerAPI Fields ProcessType) (rd : ReleaseDeletion)
  : run ProcessType (resolved Fields ProcessType) :=
  remainingAppsLoop api 0 (rdRemainingApps rd)
    (replicate (length (rdRemainingApps rd)) None).

End Relations.

(** ** Root fields that reach further repositories *)

(** [strings.SplitN(s, "/", 2)]: the text before the first slash and,
    when there is a slash, the text after it. *)
Fixpoint cutSlash (s : string) : string * option string :=
  match s with
  | EmptyString => (EmptyString, None)
  | String c s' =>
      if Ascii.eqb c "/" then (EmptyString, Some s')
      else let '(before, after) := cutSlash s' in (String c before, after)
  end.

Definition SplitN2 (s : string) : list string :=
  match cutSlash s with
  | (before, None) => [before]
  | (before, Some after) => [before; after]
  end.

(** [parts[i]]. *)
Definition index (parts : list string) (i : nat) : outcome string :=
  match parts !! i with
  | Some part => Return part
  | None => Panic IndexOutOfRange
  end.

(** [ct.Artifact], the fields [createArtifact] fills. *)
Record NewArtifact : Type := {
  artID : string;
  artType : string;
  artURI : string;
  artMeta : gmap string string;
}.

Section RootFields.

Variables (Fields ProcessType : Type).

(** The calls of the root fields: those of the repositories above, and
    [artifactRepo.Add], [formationRepo.Get], [jobRepo.Get] and
    [api.getRoute]. *)
Inductive Step : Type :=
| Repo (c : Call ProcessType)
| ArtifactRepoAdd (artifact : NewArtifact)
| FormationRepoGet (appID releaseID : string)
| JobRepoGet (id : string)
| GetRoute (appID typ id : string).

(** What these answer; [artifactRepo.Add] fills in the artifact it is
    given through the pointer. *)
Record rootAPI : Type := {
  repositories : controllerAPI Fields ProcessType;
  artifactRepoAdd : NewArtifact -> NewArtifact * option error;
  formationRepoGet : string -> string -> resolved Fields ProcessType;
  jobRepoGet : string -> resolved Fields ProcessType;
  getRoute : string -> string -> string -> resolved Fields ProcessType;
}.

Record trace (A : Type) : Type := Trace {
  steps : list Step;
  ending : outcome A;
}.

Definition done {A} (a : A) : trace A := Trace [] (Return a).
Definition step {A} (c : Step) (answer : A) : trace A := Trace [c] (Return answer).
Definition check {A} (o : outcome A) : trace A := Trace [] o.

Definition andThen {A B} (m : trace A) (k : A -> trace B) : trace B :=
  match ending m with
  | Panic p => Trace (steps m) (Panic p)
  | Return a => let r := k a in Trace (steps m ++ steps r) (ending r)
  end.

Notation "x <- m ;; k" := (andThen m (fun x => k))
  (at level 100, m at next level, right associativity).

(** [p.Args[name].(string)]: a missing key reads as nil, and nil is
    not a string. *)
Definition mustString (args : Args Fields ProcessType) (name : string)
  : outcome string :=
  match args !! name with
  | Some (VString s) => Return s
  | _ => Panic InterfaceConversion
  end.

(** [stringValue(p.Args[name])] of [createArtifact]. *)
Definition stringValue (args : Args Fields ProcessType) (name : string)
  : outcome string :=
  match args !! name with
  | None | Some VNil => Return ""
  | Some (VString s) => Return s
  | Some _ => Panic InterfaceConversion
  end.

(** [metaValue(p.Args[name])] of [createArtifact]; the nil map is the
    empty map. *)
Definition metaValue (args : Args Fields ProcessType) (name : string)
  : outcome (gmap string string) :=
  match args !! name with
  | None | Some VNil => Return ∅
  | Some (VStringMap m) => Return m
  | Some _ => Panic InterfaceConversion
  end.

(** [createArtifact]; the result is the artifact, nil never, and the
    error of [artifactRepo.Add]. *)
Definition createArtifactResolve (api : rootAPI)
    (args : Args Fields ProcessType) : trace (NewArtifact * option error) :=
  id <- check (stringValue args "id");;
  typ <- check (stringValue args "type");;
  uri <- check (stringValue args "uri");;
  meta <- check (metaValue args "meta");;
  let artifact :=
    {| artID := id; artType := typ; artURI := uri; artMeta := meta |} in
  step (ArtifactRepoAdd artifact) (artifactRepoAdd api artifact).

(** [route] of [RootQuery]. *)
Definition rootRouteResolve (api : rootAPI) (args : Args Fields ProcessType)
  : trace (resolved Fields ProcessType) :=
  id <- check (mustString args "id");;
  let parts := SplitN2 id in
  app <- check (mustString args "app");;
  typ <- check (index parts 0);;
  rest <- check (index parts 1);;
  step (GetRoute app typ rest) (getRoute api app typ rest).

(** [formation] of [RootQuery]. *)
Definition rootFormationResolve (api : rootAPI)
    (args : Args Fields ProcessType) : trace (resolved Fields ProcessType) :=
  name <- check (mustString args "app");;
  answer <- step (Repo (AppRepoGet name)) (appRepoGet (repositories api) name);;
  match snd answer with
  | Some err => done (VNil, Some err)
  | None =>
      app <- check (mustPtr TApp (fst answer));;
      release <- check (mustString args "release");;
      step (FormationRepoGet (appID app) release)
           (formationRepoGet api (appID app) release)
  end.

(** [job] of [RootQuery]. *)
Definition rootJobResolve (api : rootAPI) (args : Args Fields ProcessType)
  : trace (resolved Fields ProcessType) :=
  name <- check (mustString args "app");;
  answer <- step (Repo (AppRepoGet name)) (appRepoGet (repositories api) name);;
  match snd answer with
  | Some err => done (VNil, Some err)
  | None =>
      id <- check (mustString args "id");;
      step (JobRepoGet id) (jobRepoGet api id)
  end.

End RootFields.

Arguments Repo {ProcessType} c.
Arguments ArtifactRepoAdd {ProcessType} artifact.
Arguments FormationRepoGet {ProcessType} appID releaseID.
Arguments JobRepoGet {ProcessType} id.
Arguments GetRoute {ProcessType} appID typ id.

(** Repositories in which the app [gone] is not found and every other
    name resolves to an app ID, the artifact and release stores are
    out of reach, a new artifact gets the ID [new], and formations,
    jobs and routes are not found. *)
Definition stubRootAPI : rootAPI unit unit := {|
  repositories := {|
    appRepoGet := fun name =>
      if String.eqb name "gone" then (VNil, Some (RepoError "not found"))
      else (VPtr TApp {| appID := String.append "id-" name; appFields := tt |},
            None);
    artifactRepoListIDs := fun _ => (∅, Some (RepoError "connection lost"));
    eventRepoListEvents := eventRepoListEvents stubAPI;
    releaseRepoAdd := fun r => (r, Some (RepoError "connection lost"));
  |};
  artifactRepoAdd := fun a =>
    ({| artID := if String.eqb (artID a) "" then "new" else artID a;
        artType := artType a; artURI := artURI a; artMeta := artMeta a |},
     None);
  formationRepoGet := fun _ _ => (VNil, Some (RepoError "not found"));
  jobRepoGet := fun _ => (VNil, Some (RepoError "not found"));
  getRoute := fun _ _ _ => (VNil, Some (RepoError "not found"));
|}.

(** * Properties *)

Section Properties.

Variables (Fields ProcessType : Type).
Variable json : jsonCodec Fields ProcessType.

Abbreviation value := (value Fields ProcessType).
Abbreviation controllerAPI := (controllerAPI Fields ProcessType).

(** ** Type assertions *)

Lemma asPtr_VPtr (t : GoType) (s : StructOf Fields ProcessType t) :
  asPtr t (VPtr t s) = Some s.
Proof. destruct t; reflexivity. Qed.

Lemma mustPtr_VPtr (t : GoType) (s : StructOf Fields ProcessType t) :
  mustPtr t (VPtr t s) = Return s.
Proof. unfold mustPtr. now rewrite asPtr_VPtr. Qed.

Lemma mustPtr_VNil (t : GoType) :
  mustPtr t (@VNil Fields ProcessType) = Panic InterfaceConversion.
Proof. reflexivity. Qed.

(** ** The dispatch tables *)

Ltac by_cases_on_enumeration H :=
  repeat (destruct H as [<- | H]; [ | ]); try contradiction.

Ltac switch_misses typ H :=
  repeat match goal with
    | |- context [String.eqb typ ?c] =>
        destruct (String.eqb_spec typ c) as [-> | _];
        [ exfalso; apply H; vm_compute; tauto | ]
    end.

Lemma decodeTarget_outside (typ : EventType) :
  ~ In typ eventTypes -> decodeTarget typ = None.
Proof.
  intros H. unfold decodeTarget. switch_misses typ H. reflexivity.
Qed.

Lemma decodeTarget_inside (typ : EventType) :
  In typ eventTypes -> exists obj, decodeTarget typ = Some obj.
Proof.
  intros H. unfold eventTypes in H. simpl in H.
  by_cases_on_enumeration H; vm_compute; eauto.
Qed.

Lemma resolveTypeSwitch_outside (vars : eventObjects) (typ : EventType) :
  ~ In typ eventTypes -> resolveTypeSwitch vars typ = None.
Proof.
  intros H. unfold resolveTypeSwitch. switch_misses typ H. reflexivity.
Qed.

(** C4: for each of the 18 event types, [ResolveType] returns an object
    that is not nil and the switch of [decodeEventObjectData] selects a
    payload struct; the two resource deletion types resolve to the
    object of [resource], and [route-deletion] to the object of
    [route]. *)
Theorem dispatch_tables_total :
  (forall event : Event,
      In (evObjectType event) eventTypes ->
      (exists o : Object,
          ResolveType initEventObjects (VPtr TEvent event : value)
          = Return (Some o)) /\
      (exists obj : target, decodeTarget (evObjectType event) = Some obj)) /\
  resolveTypeSwitch initEventObjects EventTypeResourceDeletion
  = resolveTypeSwitch initEventObjects EventTypeResource /\
  resolveTypeSwitch initEventObjects EventTypeResourceAppDeletion
  = resolveTypeSwitch initEventObjects EventTypeResource /\
  resolveTypeSwitch initEventObjects EventTypeRouteDeletion
  = resolveTypeSwitch initEventObjects EventTypeRoute.
Proof.
  split; [ | repeat split ].
  intros event H. split; [ | now apply decodeTarget_inside ].
  unfold ResolveType. rewrite mustPtr_VPtr.
  destruct event as [id app typ oid data]; simpl in *.
  by_cases_on_enumeration H; vm_compute; eauto.
Qed.

(** ** [decodeEventObjectData] *)

(** The types decoded through a pointer: a payload that
    [encoding/json] accepts for the struct is returned decoded. *)
Lemma decode_through_pointer (typ : EventType) (t : GoType)
    (data : RawMessage) (s : StructOf Fields ProcessType t) :
  decodeTarget typ = Some (NewPtr t) ->
  checkValid json data = None ->
  decode json t data = inl s ->
  decodeEventObjectData json typ data = (VPtr t s, None).
Proof.
  intros Ht Hv Hd. unfold decodeEventObjectData, Unmarshal.
  now rewrite Ht, Hv, Hd.
Qed.

(** Every type of the enumeration but the two route types is decoded
    through a pointer. *)
Lemma decodeTarget_pointer (typ : EventType) :
  In typ eventTypes -> typ <> EventTypeRoute -> typ <> EventTypeRouteDeletion ->
  exists t, decodeTarget typ = Some (NewPtr t).
Proof.
  intros H Hr Hd. unfold eventTypes in H. simpl in H.
  by_cases_on_enumeration H; try congruence; vm_compute; eauto.
Qed.

(** A struct passed by value is refused whatever the payload. *)
Lemma Unmarshal_struct_fails (data : RawMessage) (t : GoType) :
  exists err, Unmarshal json data (NewStruct t) = inr err.
Proof.
  unfold Unmarshal. destruct (checkValid json data); eauto.
Qed.

(** C1: the payload of a [route] or [route-deletion] event is never
    decoded: [json.Unmarshal] gets a [router.Route] by value and
    [decodeEventObjectData] returns nil and an error for every payload,
    the valid serializations of a route among them. *)
Theorem route_payload_never_decodes :
  (forall data : RawMessage, exists err : error,
      decodeEventObjectData json EventTypeRoute data = (VNil, Some err)) /\
  (forall data : RawMessage, exists err : error,
      decodeEventObjectData json EventTypeRouteDeletion data = (VNil, Some err)) /\
  (forall data : RawMessage,
      checkValid json data = None ->
      decodeEventObjectData json EventTypeRoute data
      = (VNil, Some (InvalidUnmarshalError TRoute))).
Proof.
  repeat split; intros data.
  - unfold decodeEventObjectData. change (decodeTarget EventTypeRoute)
      with (Some (NewStruct TRoute)).
    destruct (Unmarshal_struct_fails data TRoute) as [e ->]. eauto.
  - unfold decodeEventObjectData. change (decodeTarget EventTypeRouteDeletion)
      with (Some (NewStruct TRoute)).
    destruct (Unmarshal_struct_fails data TRoute) as [e ->]. eauto.
  - intros Hv. unfold decodeEventObjectData, Unmarshal.
    change (decodeTarget EventTypeRoute) with (Some (NewStruct TRoute)).
    now rewrite Hv.
Qed.

(** C5: for a discriminator outside the enumeration,
    [decodeEventObjectData] returns nil and the invalid event type
    error, whatever the payload. *)
Theorem unknown_event_type_rejected (typ : EventType) (data : RawMessage) :
  ~ In typ eventTypes ->
  decodeEventObjectData json typ data = (VNil, Some (InvalidEventTypeError typ)).
Proof.
  intros H. unfold decodeEventObjectData.
  now rewrite (decodeTarget_outside H).
Qed.

(** ** The [data] field of an event object *)

Lemma eventDataResolve_event (api : controllerAPI) (event : Event) :
  eventDataResolve json api (VPtr TEvent event) = lift (eventData json event).
Proof.
  unfold eventDataResolve, eventFieldResolveFunc, fieldResolveFunc.
  now rewrite asPtr_VPtr.
Qed.

(** For the types other than [release-deletion] the resolver returns
    what [decodeEventObjectData] returns, its error included. *)
Lemma eventData_other_types (event : Event) :
  evObjectType event <> EventTypeReleaseDeletion ->
  eventData json event
  = Return (decodeEventObjectData json (evObjectType event) (evData event)).
Proof.
  intros H. unfold eventData.
  destruct (decodeEventObjectData json (evObjectType event) (evData event))
    as [data err].
  destruct (String.eqb_spec (evObjectType event) EventTypeReleaseDeletion);
    [ contradiction | reflexivity ].
Qed.

(** C2: when the payload of a [release-deletion] event fails to decode,
    the resolver of [data] does not return the decode error: it asserts
    the type of the nil value [decodeEventObjectData] returned with the
    error, and panics. *)
Theorem release_deletion_decode_error_panics
    (api : controllerAPI) (event : Event) (err : error) :
  evObjectType event = EventTypeReleaseDeletion ->
  decodeEventObjectData json (evObjectType event) (evData event)
  = (VNil, Some err) ->
  eventDataResolve json api (VPtr TEvent event)
  = Run [] (Panic InterfaceConversion).
Proof.
  intros Ht Hd. rewrite eventDataResolve_event. unfold eventData.
  rewrite Hd, Ht. reflexivity.
Qed.

(** A decoded release deletion without a nested record makes the
    resolver panic as well, on [rd.AppID]. *)
Lemma release_deletion_without_record_panics
    (api : controllerAPI) (event : Event) (rde : ReleaseDeletionEvent) :
  evObjectType event = EventTypeReleaseDeletion ->
  decodeEventObjectData json (evObjectType event) (evData event)
  = (VPtr TReleaseDeletionEvent rde, None) ->
  rdeReleaseDeletion rde = None ->
  eventDataResolve json api (VPtr TEvent event) = Run [] (Panic NilDereference).
Proof.
  intros Ht Hd Hn. rewrite eventDataResolve_event. unfold eventData.
  rewrite Hd, Ht. cbn. now rewrite Hn.
Qed.

(** C3: for a [release-deletion] event whose payload decodes to a
    record [rde] with nested record [rd]: when [rd] has no app ID and
    the event has one, [data] is [rde] with the app ID of the event in
    the nested record; when [rd] has an app ID, [data] is [rde] as
    decoded. *)
Theorem release_deletion_backfill
    (api : controllerAPI) (event : Event)
    (rde : ReleaseDeletionEvent) (rd : ReleaseDeletion) :
  evObjectType event = EventTypeReleaseDeletion ->
  decodeEventObjectData json (evObjectType event) (evData event)
  = (VPtr TReleaseDeletionEvent rde, None) ->
  rdeReleaseDeletion rde = Some rd ->
  (rdAppID rd = "" -> evAppID event <> "" ->
   eventDataResolve json api (VPtr TEvent event)
   = Run [] (Return
       (VPtr TReleaseDeletionEvent
          {| rdeReleaseDeletion :=
               Some {| rdAppID := evAppID event;
                       rdReleaseID := rdReleaseID rd;
                       rdRemainingApps := rdRemainingApps rd;
                       rdDeletedFiles := rdDeletedFiles rd |};
             rdeError := rdeError rde |}, None))) /\
  (rdAppID rd <> "" ->
   eventDataResolve json api (VPtr TEvent event)
   = Run [] (Return (VPtr TReleaseDeletionEvent rde, None))).
Proof.
  intros Ht Hd Hrd. rewrite eventDataResolve_event. unfold eventData.
  rewrite Hd, Ht. cbn. rewrite Hrd. split.
  - intros Hempty Happ. rewrite Hempty.
    destruct (String.eqb_spec (evAppID event) ""); [ contradiction | ].
    reflexivity.
  - intros Hfull.
    destruct (String.eqb_spec (rdAppID rd) ""); [ contradiction | ].
    reflexivity.
Qed.

(** ** The [app] field of a route *)

Lemma HasPrefix_append (prefix rest : string) :
  HasPrefix (String.append prefix rest) prefix = true.
Proof.
  induction prefix as [ | c prefix IH]; simpl; [ reflexivity | ].
  now rewrite Ascii.eqb_refl.
Qed.

Lemma HasPrefix_true (s prefix : string) :
  HasPrefix s prefix = true -> exists rest, s = String.append prefix rest.
Proof.
  revert s. induction prefix as [ | c prefix IH]; intros s H; simpl in *.
  - now exists s.
  - destruct s as [ | d s]; [ discriminate | ].
    destruct (Ascii.eqb_spec c d) as [-> | ]; [ | discriminate ].
    destruct (IH s H) as [rest ->]. now exists rest.
Qed.

Lemma dropBytes_append (prefix rest : string) :
  dropBytes (String.length prefix) (String.append prefix rest) = rest.
Proof. induction prefix; simpl; auto. Qed.

Lemma TrimPrefix_append (prefix rest : string) :
  TrimPrefix (String.append prefix rest) prefix = rest.
Proof.
  unfold TrimPrefix. rewrite HasPrefix_append. apply dropBytes_append.
Qed.

Variable RouteParentRefPrefix : string.

(** C7: a route whose parent reference does not begin with
    [ct.RouteParentRefPrefix] has an absent [app], resolved without a
    repository call; a route whose parent reference is the prefix
    followed by [id] makes the one call [appRepo.Get(id)] and returns
    its answer. *)
Theorem route_app_lookup (api : controllerAPI) (r : Route) :
  ((forall id, rtParentRef r <> String.append RouteParentRefPrefix id) ->
   routeAppResolve RouteParentRefPrefix api (VPtr TRoute r)
   = Run [] (Return (VNil, None))) /\
  (forall id : string,
      rtParentRef r = String.append RouteParentRefPrefix id ->
      routeAppResolve RouteParentRefPrefix api (VPtr TRoute r)
      = Run [AppRepoGet id] (Return (appRepoGet api id))).
Proof.
  unfold routeAppResolve, routeFieldResolveFunc, fieldResolveFunc.
  rewrite asPtr_VPtr. unfold routeApp. split.
  - intros Hno.
    destruct (HasPrefix (rtParentRef r) RouteParentRefPrefix) eqn:Hp;
      [ | reflexivity ].
    destruct (HasPrefix_true _ _ Hp) as [rest Hrest]. now destruct (Hno rest).
  - intros id Hid. rewrite Hid, HasPrefix_append, TrimPrefix_append.
    reflexivity.
Qed.

(** ** The [deploy_timeout] field of a deployment *)

(** C9: the resolver of [deploy_timeout] returns the status of the
    deployment, a string, as the resolver of [status] does; it never
    returns the deploy timeout. *)
Theorem deployment_deploy_timeout_returns_status
    (api : controllerAPI) (d : Deployment) :
  deploymentDeployTimeoutResolve api (VPtr TDeployment d)
  = Run [] (Return (VString (dStatus d), None)) /\
  deploymentDeployTimeoutResolve api (VPtr TDeployment d)
  = deploymentStatus api d /\
  result (deploymentDeployTimeoutResolve api (VPtr TDeployment d))
  <> Return (VInt (dDeployTimeout d), None).
Proof.
  unfold deploymentDeployTimeoutResolve, deploymentFieldResolveFunc,
    fieldResolveFunc.
  rewrite asPtr_VPtr. repeat split. discriminate.
Qed.

(** ** [listArtifacts] *)

Abbreviation Artifact := (Artifact Fields ProcessType).

Lemma fillArtifacts_overrun (m : gmap string (option Artifact))
    (ids : list string) :
  forall (i : nat) (arts : list (option Artifact)),
    (i <= length arts)%nat -> (length arts < i + length ids)%nat ->
    fillArtifacts m i ids arts = Panic IndexOutOfRange.
Proof.
  induction ids as [ | id rest IH]; intros i arts Hle Hlt; simpl in *.
  - lia.
  - destruct (Nat.ltb_spec i (length arts)); [ | reflexivity ].
    apply IH; rewrite length_insert; lia.
Qed.

Lemma fillArtifacts_fits (m : gmap string (option Artifact))
    (ids : list string) :
  forall (i : nat) (arts : list (option Artifact)),
    (i + length ids <= length arts)%nat ->
    fillArtifacts m i ids arts
    = Return (take i arts
              ++ map (fun id => default None (m !! id)) ids
              ++ drop (i + length ids) arts)%list.
Proof.
  induction ids as [ | id rest IH]; intros i arts Hle; simpl in *.
  - now rewrite Nat.add_0_r, take_drop.
  - destruct (Nat.ltb_spec i (length arts)); [ | lia ].
    rewrite IH by (rewrite length_insert; lia).
    rewrite (take_S_r _ _ (default None (m !! id)))
      by now apply list_lookup_insert_eq.
    rewrite take_insert_ge by lia.
    rewrite drop_insert_lt by lia.
    rewrite <- app_assoc. simpl.
    now replace (i + S (length rest))%nat with (S (i + length rest)) by lia.
Qed.

(** C10: when the map the repository answers with has fewer entries
    than there are IDs (an ID it lacks, or an ID listed twice),
    [listArtifacts] panics after the repository call: the slice has the
    length of the map and is indexed by the position in the ID list. *)
Theorem listArtifacts_short_map_panics (api : controllerAPI)
    (ids : list string) (m : gmap string (option Artifact)) :
  artifactRepoListIDs api ids = (m, None) ->
  (size m < length ids)%nat ->
  listArtifacts api ids = Run [ArtifactRepoListIDs ids] (Panic IndexOutOfRange).
Proof.
  intros Hm Hlt. unfold listArtifacts, bind, call. simpl. rewrite Hm. simpl.
  unfold bind, lift. simpl.
  rewrite fillArtifacts_overrun;
    [ reflexivity | lia | rewrite length_replicate; exact Hlt ].
Qed.

(** With at least as many entries as IDs, the result holds the artifact
    of each ID at its position, and nil pointers after them when the
    map is larger. *)
Lemma listArtifacts_full_map (api : controllerAPI)
    (ids : list string) (m : gmap string (option Artifact)) :
  artifactRepoListIDs api ids = (m, None) ->
  (length ids <= size m)%nat ->
  listArtifacts api ids
  = Run [ArtifactRepoListIDs ids]
      (Return ((map (fun id => default None (m !! id)) ids
                ++ replicate (size m - length ids) None)%list, None)).
Proof.
  intros Hm Hle. unfold listArtifacts, bind, call. simpl. rewrite Hm. simpl.
  unfold bind, lift. simpl.
  rewrite fillArtifacts_fits by (rewrite length_replicate; exact Hle).
  simpl. now rewrite drop_replicate.
Qed.

Lemma listArtifacts_repository_error (api : controllerAPI)
    (ids : list string) (m : gmap string (option Artifact)) (err : error) :
  artifactRepoListIDs api ids = (m, Some err) ->
  listArtifacts api ids = Run [ArtifactRepoListIDs ids] (Return ([], Some err)).
Proof.
  intros Hm. unfold listArtifacts, bind, call. simpl. now rewrite Hm.
Qed.

(** A release without artifact IDs has the empty list of artifacts,
    resolved without a repository call. *)
Lemma releaseArtifacts_none (api : controllerAPI)
    (release : Release ProcessType) :
  relArtifactIDs release = [] ->
  releaseArtifactsResolve api (VPtr TRelease release)
  = Run [] (Return (VPtrSlice TArtifact [], None)).
Proof.
  intros H. unfold releaseArtifactsResolve, releaseFieldResolveFunc,
    fieldResolveFunc.
  rewrite asPtr_VPtr. unfold releaseArtifacts. now rewrite H.
Qed.

(** ** The [events] fields *)

Lemma listEvents_run (api : controllerAPI) (appID : string)
    (args : Args Fields ProcessType)
    (objectTypes : list string) (objectID : string) :
  stringListArg args "object_types" = Return objectTypes ->
  stringArg args "object_id" = Return objectID ->
  listEvents api appID args
  = Run [EventRepoListEvents appID objectTypes objectID
           (cursorArg args "before_id") (cursorArg args "since_id")
           (countArg args)]
      (Return
         (VPtrSlice TEvent
            (fst (eventRepoListEvents api appID objectTypes objectID
                    (cursorArg args "before_id") (cursorArg args "since_id")
                    (countArg args))),
          snd (eventRepoListEvents api appID objectTypes objectID
                 (cursorArg args "before_id") (cursorArg args "since_id")
                 (countArg args)))).
Proof.
  intros Ht Ho. unfold listEvents, bind, lift, call. simpl.
  rewrite Ht. simpl. rewrite Ho. reflexivity.
Qed.

(** ** [createRelease] *)

(** When the [processes] argument fails to deserialize (in
    [json.Marshal] or in [json.Unmarshal] into the map),
    [createRelease] never calls [releaseRepo.Add]; and when the
    arguments read before it ([id], [artifacts], [env], [meta]) are
    absent or of their Go types, it returns nil and that error. *)
Theorem createRelease_bad_processes (api : controllerAPI)
    (args : Args Fields ProcessType) (err : error) :
  processesArg json args = inr err ->
  calls (createReleaseResolve json api args) = [] /\
  (forall (id : string) (artifacts : list string)
          (env meta : gmap string string),
      stringArg args "id" = Return id ->
      stringListArg args "artifacts" = Return artifacts ->
      stringMapArg args "env" = Return env ->
      stringMapArg args "meta" = Return meta ->
      createReleaseResolve json api args = Run [] (Return (VNil, Some err))).
Proof.
  intros Hp. unfold createReleaseResolve. rewrite Hp. split.
  - unfold bind, lift. simpl.
    destruct (stringArg args "id"); simpl; [ | reflexivity ].
    destruct (stringListArg args "artifacts"); simpl; [ | reflexivity ].
    destruct (stringMapArg args "env"); simpl; [ | reflexivity ].
    destruct (stringMapArg args "meta"); simpl; reflexivity.
  - intros id artifacts env meta Hi Ha He Hm.
    unfold bind, lift. simpl. rewrite Hi. simpl. rewrite Ha. simpl.
    rewrite He. simpl. rewrite Hm. reflexivity.
Qed.

(** With well-formed arguments the release is handed to
    [releaseRepo.Add] once. *)
Lemma createRelease_writes_once (api : controllerAPI)
    (args : Args Fields ProcessType)
    (id : string) (artifacts : list string) (env meta : gmap string string)
    (processes : gmap string ProcessType) :
  stringArg args "id" = Return id ->
  stringListArg args "artifacts" = Return artifacts ->
  stringMapArg args "env" = Return env ->
  stringMapArg args "meta" = Return meta ->
  processesArg json args = inl processes ->
  calls (createReleaseResolve json api args)
  = [ReleaseRepoAdd {| relID := id; relArtifactIDs := artifacts;
                       relEnv := env; relMeta := meta;
                       relProcesses := processes |}].
Proof.
  intros Hi Ha He Hm Hp. unfold createReleaseResolve. rewrite Hp.
  unfold bind, lift. simpl. rewrite Hi. simpl. rewrite Ha. simpl.
  rewrite He. simpl. rewrite Hm. reflexivity.
Qed.

End Properties.

(** * The theorems at concrete inputs *)

(** C4 at a [route-deletion] event. *)
Lemma dispatch_tables_total_witness :
  let event := {| evID := 7; evAppID := ""; evObjectType := EventTypeRouteDeletion;
                  evObjectID := "r1"; evData := bytes "{}" |} in
  In (evObjectType event) eventTypes /\
  (exists o : Object,
      ResolveType initEventObjects (VPtr TEvent event : value unit unit)
      = Return (Some o)) /\
  (exists obj : target, decodeTarget (evObjectType event) = Some obj).
Proof.
  intros event.
  assert (Hin : In (evObjectType event) eventTypes) by (vm_compute; tauto).
  split; [ exact Hin | ].
  exact (proj1 (dispatch_tables_total unit unit) event Hin).
Defined.

(** C5 at the discriminator [app_deletion], which is not in the
    enumeration. *)
Lemma unknown_event_type_rejected_witness :
  ~ In "app_deletion" eventTypes /\
  decodeEventObjectData stubCodec "app_deletion" (bytes "{}")
  = (VNil, Some (InvalidEventTypeError "app_deletion")).
Proof.
  assert (Hout : ~ In "app_deletion" eventTypes)
    by (vm_compute; intuition discriminate).
  split; [ exact Hout | ].
  exact (unknown_event_type_rejected stubCodec (bytes "{}") Hout).
Defined.

(** C2 at a [release-deletion] event whose payload is an array. *)
Lemma release_deletion_decode_error_panics_witness :
  let event := {| evID := 42; evAppID := "a1";
                  evObjectType := EventTypeReleaseDeletion;
                  evObjectID := "r1"; evData := bytes "[]" |} in
  decodeEventObjectData stubCodec (evObjectType event) (evData event)
  = (VNil, Some (JSONError "cannot unmarshal")) /\
  eventDataResolve stubCodec stubAPI (VPtr TEvent event)
  = Run [] (Panic InterfaceConversion).
Proof.
  intros event.
  assert (Hd : decodeEventObjectData stubCodec (evObjectType event) (evData event)
               = (VNil, Some (JSONError "cannot unmarshal")))
    by (vm_compute; reflexivity).
  split; [ exact Hd | ].
  exact (release_deletion_decode_error_panics stubCodec stubAPI event
           eq_refl Hd).
Defined.

(** C3 at an event of app [a9] whose nested record has no app ID. *)
Lemma release_deletion_backfill_witness :
  let event := {| evID := 42; evAppID := "a9";
                  evObjectType := EventTypeReleaseDeletion;
                  evObjectID := "r1"; evData := bytes "{r1}" |} in
  eventDataResolve stubCodec stubAPI (VPtr TEvent event)
  = Run [] (Return
      (VPtr TReleaseDeletionEvent
         {| rdeReleaseDeletion :=
              Some {| rdAppID := "a9"; rdReleaseID := "r1";
                      rdRemainingApps := []; rdDeletedFiles := [] |};
            rdeError := "" |}, None)).
Proof.
  intros event.
  refine (proj1 (release_deletion_backfill stubCodec stubAPI event
                   (rde := {| rdeReleaseDeletion :=
                                Some {| rdAppID := ""; rdReleaseID := "r1";
                                        rdRemainingApps := [];
                                        rdDeletedFiles := [] |};
                              rdeError := "" |})
                   eq_refl _ eq_refl) eq_refl _).
  - vm_compute; reflexivity.
  - discriminate.
Defined.

(** C7 at a route of the app [a1]. *)
Lemma route_app_lookup_witness :
  let r := {| rtID := "http/1"; rtParentRef := "controller/apps/a1" |} in
  rtParentRef r = String.append "controller/apps/" "a1" /\
  routeAppResolve "controller/apps/" stubAPI (VPtr TRoute r)
  = Run [AppRepoGet "a1"] (Return (appRepoGet stubAPI "a1")).
Proof.
  intros r. split; [ reflexivity | ].
  exact (proj2 (route_app_lookup "controller/apps/" stubAPI r) "a1" eq_refl).
Defined.

(** C10 at a list that names [a1] twice: the map has one entry. *)
Lemma listArtifacts_short_map_panics_witness :
  listArtifacts stubAPI ["a1"; "a1"]
  = Run [ArtifactRepoListIDs ["a1"; "a1"]] (Panic IndexOutOfRange).
Proof.
  refine (listArtifacts_short_map_panics stubAPI ["a1"; "a1"]
            (m := {[ "a1" := Some tt ]}) _ _).
  - vm_compute; reflexivity.
  - vm_compute; lia.
Defined.

(** A [processes] argument that is a string, with [env] and [meta]
    absent. *)
Lemma createRelease_bad_processes_witness :
  let args : Args unit unit :=
    {[ "id" := VString "r1"; "processes" := VString "web" ]} in
  processesArg stubCodec args = inr (JSONError "cannot unmarshal array") /\
  createReleaseResolve stubCodec stubAPI args
  = Run [] (Return (VNil, Some (JSONError "cannot unmarshal array"))).
Proof.
  intros args.
  assert (Hp : processesArg stubCodec args
               = inr (JSONError "cannot unmarshal array"))
    by (vm_compute; reflexivity).
  split; [ exact Hp | ].
  exact (proj2 (createRelease_bad_processes stubCodec stubAPI args Hp)
           "r1" [] ∅ ∅ eq_refl eq_refl eq_refl eq_refl).
Defined.

(** The payload [{}] is decoded for a [resource] event and refused for
    a [route] event, though the codec accepts it for both structs. *)
Example route_payload_refused :
  stubDecode TRoute (bytes "{}") = inl {| rtID := ""; rtParentRef := "" |} /\
  decodeEventObjectData stubCodec EventTypeResource (bytes "{}")
  = (VPtr TResource tt, None) /\
  decodeEventObjectData stubCodec EventTypeRoute (bytes "{}")
  = (VNil, Some (InvalidUnmarshalError TRoute)).
Proof. repeat split. Qed.

(** A pending deployment with a timeout of 30 seconds resolves
    [deploy_timeout] to its status. *)
Example deploy_timeout_of_pending_deployment :
  deploymentDeployTimeoutResolve stubAPI
    (VPtr TDeployment
       {| dID := "d1"; dAppID := "a1"; dOldReleaseID := "r1";
          dNewReleaseID := "r2"; dStrategy := "all-at-once";
          dStatus := "pending"; dDeployTimeout := 30 |})
  = Run [] (Return (VString "pending", None)).
Proof. reflexivity. Qed.

(** The artifacts of [a1] and [a2] are listed in the order asked for;
    an ID the repository lacks makes the listing panic. *)
Example listArtifacts_found_and_missing :
  listArtifacts stubAPI ["a2"; "a1"]
  = Run [ArtifactRepoListIDs ["a2"; "a1"]] (Return ([Some tt; Some tt], None)) /\
  listArtifacts stubAPI ["a1"; "zz"]
  = Run [ArtifactRepoListIDs ["a1"; "zz"]] (Panic IndexOutOfRange).
Proof. split; vm_compute; reflexivity. Qed.

(** * Further properties *)

Section Decoding.

Variables (Fields ProcessType : Type).
Variable json : jsonCodec Fields ProcessType.

Abbreviation value := (value Fields ProcessType).
Abbreviation controllerAPI := (controllerAPI Fields ProcessType).

(** [decodeEventObjectData] returns a value or an error, never both
    and never neither: a pointer to a struct of the type its switch
    selects with a nil error, or nil with an error. *)
Theorem decode_value_or_error (typ : EventType) (data : RawMessage) :
  (exists (t : GoType) (s : StructOf Fields ProcessType t),
      decodeTarget typ = Some (NewPtr t) /\
      decodeEventObjectData json typ data = (VPtr t s, None)) \/
  (exists err : error,
      decodeEventObjectData json typ data = (VNil, Some err)).
Proof.
  unfold decodeEventObjectData, Unmarshal.
  destruct (decodeTarget typ) as [[t | t] | ]; [ | | right; eauto ];
    destruct (checkValid json data); try (right; eauto; fail).
  destruct (decode json t data) as [s | e]; [ left | right ]; eauto.
Qed.

Lemma in_eventTypes_dec (typ : EventType) :
  In typ eventTypes \/ ~ In typ eventTypes.
Proof.
  destruct (in_dec string_dec typ eventTypes); [ now left | now right ].
Qed.

(** The two switches have the same domain: [ResolveType] answers nil
    exactly for the discriminators for which [decodeEventObjectData]
    has no case, and these are the ones outside the enumeration. *)
Theorem dispatch_tables_agree (typ : EventType) :
  (resolveTypeSwitch initEventObjects typ = None <-> decodeTarget typ = None) /\
  (decodeTarget typ = None <-> ~ In typ eventTypes).
Proof.
  assert (Hd : decodeTarget typ = None <-> ~ In typ eventTypes).
  { split; [ | apply decodeTarget_outside ].
    intros Hnone Hin. destruct (decodeTarget_inside Hin) as [obj Hobj].
    congruence. }
  split; [ | exact Hd ]. rewrite Hd. split.
  - intros Hnone Hin. revert Hnone. unfold eventTypes in Hin. simpl in Hin.
    repeat (destruct Hin as [<- | Hin]; [ vm_compute; discriminate | ]).
    contradiction.
  - apply resolveTypeSwitch_outside.
Qed.

(** For every discriminator of the enumeration but the two route
    types, the switch selects a pointer to a struct, and a payload that
    [encoding/json] accepts for that struct is returned decoded, with a
    nil error. *)
Theorem pointer_types_decode (typ : EventType) :
  In typ eventTypes ->
  typ <> EventTypeRoute -> typ <> EventTypeRouteDeletion ->
  exists t : GoType,
    decodeTarget typ = Some (NewPtr t) /\
    forall (data : RawMessage) (s : StructOf Fields ProcessType t),
      checkValid json data = None ->
      decode json t data = inl s ->
      decodeEventObjectData json typ data = (VPtr t s, None).
Proof.
  intros Hin Hr Hd. destruct (decodeTarget_pointer Hin Hr Hd) as [t Ht].
  exists t. split; [ exact Ht | ].
  intros data s Hv Hs. now apply decode_through_pointer.
Qed.

(** The resolver of [data] never reaches a repository, whatever the
    source and the payload. *)
Theorem eventData_makes_no_call (api : controllerAPI) (source : value) :
  calls (eventDataResolve json api source) = [].
Proof.
  unfold eventDataResolve, eventFieldResolveFunc, fieldResolveFunc.
  destruct (asPtr TEvent source); reflexivity.
Qed.

(** For a [release-deletion] event whose payload decodes to a record
    with a nested record, the nested app ID of [data] is the decoded
    one when that is not empty and the one of the event otherwise;
    nothing else of the record changes. *)
Theorem release_deletion_app_id (api : controllerAPI) (event : Event)
    (rde : ReleaseDeletionEvent) (rd : ReleaseDeletion) :
  evObjectType event = EventTypeReleaseDeletion ->
  decodeEventObjectData json (evObjectType event) (evData event)
  = (VPtr TReleaseDeletionEvent rde, None) ->
  rdeReleaseDeletion rde = Some rd ->
  eventDataResolve json api (VPtr TEvent event)
  = Run []
      (Return
         (VPtr TReleaseDeletionEvent
            {| rdeReleaseDeletion :=
                 Some {| rdAppID := if String.eqb (rdAppID rd) ""
                                    then evAppID event else rdAppID rd;
                         rdReleaseID := rdReleaseID rd;
                         rdRemainingApps := rdRemainingApps rd;
                         rdDeletedFiles := rdDeletedFiles rd |};
               rdeError := rdeError rde |}, None)).
Proof.
  intros Ht Hd Hrd. rewrite eventDataResolve_event. unfold eventData.
  rewrite Hd, Ht. cbn. rewrite Hrd.
  destruct rde as [nested msg]; simpl in *; subst nested.
  destruct rd as [app rel remaining deleted]; simpl.
  destruct (String.eqb_spec app "") as [-> | Happ]; simpl.
  - destruct (String.eqb_spec (evAppID event) "") as [-> | ]; reflexivity.
  - reflexivity.
Qed.

(** For every discriminator but [release-deletion], a payload that
    fails to decode makes [data] resolve to nil and the decode error,
    without a panic. *)
Theorem decode_error_is_returned (api : controllerAPI) (event : Event)
    (err : error) :
  evObjectType event <> EventTypeReleaseDeletion ->
  decodeEventObjectData json (evObjectType event) (evData event)
  = (VNil, Some err) ->
  eventDataResolve json api (VPtr TEvent event)
  = Run [] (Return (VNil, Some err)).
Proof.
  intros Ht Hd. rewrite eventDataResolve_event.
  now rewrite (eventData_other_types json event Ht), Hd.
Qed.

(** A resolver wrapped for [*T] does not run on a nil source or on a
    pointer to another struct type: the field is nil, without error and
    without a repository call. *)
Theorem wrapped_resolver_skips_other_sources (t t' : GoType)
    (fn : controllerAPI -> StructOf Fields ProcessType t ->
          run ProcessType (resolved Fields ProcessType))
    (api : controllerAPI) (s : StructOf Fields ProcessType t') :
  t' <> t ->
  fieldResolveFunc t fn api (VPtr t' s) = Run [] (Return (VNil, None)) /\
  fieldResolveFunc t fn api VNil = Run [] (Return (VNil, None)).
Proof.
  intros Hne. split; [ | reflexivity ].
  unfold fieldResolveFunc, asPtr.
  destruct (GoType_eq_dec t' t); [ contradiction | reflexivity ].
Qed.

End Decoding.

Section Listing.

Variables (Fields ProcessType : Type).
Variable json : jsonCodec Fields ProcessType.

Abbreviation value := (value Fields ProcessType).
Abbreviation controllerAPI := (controllerAPI Fields ProcessType).
Abbreviation arguments := (Args Fields ProcessType).

(** ** [listArtifacts] and the [artifacts] field *)

(** [listArtifacts] asks the repository once, for the IDs it is given,
    whether it then returns, returns the error or panics. *)
Theorem listArtifacts_asks_once (api : controllerAPI) (ids : list string) :
  calls (listArtifacts api ids) = [ArtifactRepoListIDs ids].
Proof.
  unfold listArtifacts, bind, call. simpl.
  destruct (artifactRepoListIDs api ids) as [m [e | ]]; simpl;
    [ reflexivity | ].
  unfold bind, lift. simpl.
  match goal with
  | |- context [match ?filled with Return _ => _ | Panic _ => _ end] =>
      now destruct filled
  end.
Qed.

(** The [artifacts] field of a release calls the repository only when
    the release has artifact IDs, and then once with these IDs. *)
Theorem releaseArtifacts_calls (api : controllerAPI)
    (release : Release ProcessType) :
  calls (releaseArtifactsResolve api (VPtr TRelease release))
  = match relArtifactIDs release with
    | [] => []
    | _ :: _ => [ArtifactRepoListIDs (relArtifactIDs release)]
    end.
Proof.
  unfold releaseArtifactsResolve, releaseFieldResolveFunc, fieldResolveFunc.
  rewrite asPtr_VPtr. unfold releaseArtifacts.
  destruct (relArtifactIDs release) as [ | id rest] eqn:Hids; [ reflexivity | ].
  simpl. unfold bind at 1.
  pose proof (listArtifacts_asks_once api (id :: rest)) as Hcalls.
  destruct (listArtifacts api (id :: rest)) as [cs [listed | p]];
    simpl in *; subst cs; reflexivity.
Qed.

(** ** The [events] fields *)

Lemma int64_in_range (n : Z) :
  - 2 ^ 63 <= n < 2 ^ 63 -> int64 n = n.
Proof. intros H. unfold int64. rewrite Z.mod_small; lia. Qed.

(** Integer arguments reach [ListEvents] as they are: a [before_id],
    [since_id] and [count] within the range of [int64] are passed as
    the two cursors and the count of the one call. *)
Theorem events_integer_arguments_passed (api : controllerAPI)
    (appID : string) (args : arguments)
    (objectTypes : list string) (objectID : string) (before since count : Z) :
  stringListArg args "object_types" = Return objectTypes ->
  stringArg args "object_id" = Return objectID ->
  args !! "before_id" = Some (VInt before) ->
  args !! "since_id" = Some (VInt since) ->
  args !! "count" = Some (VInt count) ->
  - 2 ^ 63 <= before < 2 ^ 63 ->
  - 2 ^ 63 <= since < 2 ^ 63 ->
  calls (listEvents api appID args)
  = [EventRepoListEvents appID objectTypes objectID
       (Some before) (Some since) count].
Proof.
  intros Ht Ho Hb Hs Hc Hbr Hsr. rewrite (listEvents_run api appID args Ht Ho).
  simpl. unfold cursorArg, countArg. rewrite Hb, Hs, Hc.
  now rewrite !int64_in_range.
Qed.

(** Without arguments the listing of [RootQuery] asks for all events:
    no app, no types, no object, nil cursors and count 0. *)
Theorem events_without_filters (api : controllerAPI) (args : arguments) :
  (forall name : string, args !! name = None) ->
  calls (rootEventsResolve api args)
  = [EventRepoListEvents "" [] "" None None 0].
Proof.
  intros Hnone. unfold rootEventsResolve, bind, lift, stringArg. simpl.
  rewrite Hnone. simpl.
  rewrite (listEvents_run api "" args (objectTypes := []) (objectID := ""));
    [ | unfold stringListArg; now rewrite Hnone
      | unfold stringArg; now rewrite Hnone ].
  simpl. unfold cursorArg, countArg. now rewrite !Hnone.
Qed.

(** An [app_id], [object_types] or [object_id] of the wrong type makes
    the listing panic in the type assertion, before the repository is
    called. *)
Theorem events_ill_typed_filter_panics (api : controllerAPI) (args : arguments)
    (v : value) :
  (args !! "app_id" = Some v -> (forall s, v <> VString s) ->
   rootEventsResolve api args = Run [] (Panic InterfaceConversion)) /\
  (forall appID : string,
      args !! "object_types" = Some v -> (forall l, v <> VList l) ->
      listEvents api appID args = Run [] (Panic InterfaceConversion)) /\
  (forall (appID : string) (objectTypes : list string),
      stringListArg args "object_types" = Return objectTypes ->
      args !! "object_id" = Some v -> (forall s, v <> VString s) ->
      listEvents api appID args = Run [] (Panic InterfaceConversion)).
Proof.
  split; [ | split ].
  - intros Hv Hn. unfold rootEventsResolve, bind, lift, stringArg. simpl.
    rewrite Hv. destruct v; try reflexivity. now destruct (Hn s).
  - intros appID Hv Hn. unfold listEvents, bind, lift, stringListArg. simpl.
    rewrite Hv. destruct v; try reflexivity. now destruct (Hn l).
  - intros appID objectTypes Ht Hv Hn. unfold listEvents, bind, lift. simpl.
    rewrite Ht. simpl. unfold stringArg. rewrite Hv.
    destruct v; try reflexivity. now destruct (Hn s).
Qed.

Lemma listEvents_calls (api : controllerAPI) (appID : string) (args : arguments) :
  calls (listEvents api appID args) = [] \/
  exists objectTypes objectID beforeID sinceID count,
    calls (listEvents api appID args)
    = [EventRepoListEvents appID objectTypes objectID beforeID sinceID count].
Proof.
  unfold listEvents, bind, lift, call. simpl.
  destruct (stringListArg args "object_types") as [ots | p]; simpl;
    [ | now left ].
  destruct (stringArg args "object_id") as [oid | p]; simpl; [ | now left ].
  right. now repeat eexists.
Qed.

(** Both listings call the repository at most once, and only
    [ListEvents]; the listing of an app asks for the events of that
    app. *)
Theorem events_at_most_one_call (api : controllerAPI) (args : arguments)
    (app : App Fields) :
  (calls (rootEventsResolve api args) = [] \/
   exists appID objectTypes objectID beforeID sinceID count,
     calls (rootEventsResolve api args)
     = [EventRepoListEvents appID objectTypes objectID beforeID sinceID count]) /\
  (calls (appEventsResolve api (VPtr TApp app) args) = [] \/
   exists objectTypes objectID beforeID sinceID count,
     calls (appEventsResolve api (VPtr TApp app) args)
     = [EventRepoListEvents (appID app) objectTypes objectID
          beforeID sinceID count]).
Proof.
  split.
  - unfold rootEventsResolve, bind, lift. simpl.
    destruct (stringArg args "app_id") as [a | p]; simpl; [ | now left ].
    destruct (listEvents_calls api a args)
      as [Hnone | (ots & oid & b & s0 & n & Hone)].
    + left. revert Hnone. now destruct (listEvents api a args).
    + right. exists a, ots, oid, b, s0, n. revert Hone.
      now destruct (listEvents api a args).
  - unfold appEventsResolve. rewrite asPtr_VPtr. apply listEvents_calls.
Qed.

(** The listing of an app does not read the [app_id] argument its
    field declares: the events are those of the app it is resolved
    on. *)
Theorem app_events_ignore_app_id (api : controllerAPI) (app : App Fields)
    (args : arguments) (v : value) :
  appEventsResolve api (VPtr TApp app) (<["app_id" := v]> args)
  = appEventsResolve api (VPtr TApp app) args.
Proof.
  unfold appEventsResolve. rewrite asPtr_VPtr.
  unfold listEvents, cursorArg, countArg, stringListArg, stringArg, Args.
  now rewrite !lookup_insert_ne by discriminate.
Qed.

(** ** Lists of strings in arguments *)

(** A [[]interface{}] is read as a list of strings exactly when every
    element is a string, and then in the same order. *)
Theorem stringsOf_strings (l : list value) (ss : list string) :
  stringsOf l = Return ss <-> l = map VString ss.
Proof.
  revert ss. induction l as [ | v l IH]; intros ss; simpl.
  - split.
    + intros H. injection H as <-. reflexivity.
    + destruct ss; [ reflexivity | discriminate ].
  - destruct v; try (split; [ discriminate | destruct ss; discriminate ]).
    destruct (stringsOf l) as [ss' | p] eqn:Hl.
    + split.
      * intros H. injection H as <-. simpl. f_equal. now apply IH.
      * destruct ss as [ | s' ss]; [ discriminate | ].
        simpl. intros H. injection H as -> Hrest.
        apply IH in Hrest. now injection Hrest as ->.
    + split; [ discriminate | ].
      destruct ss as [ | s' ss]; [ discriminate | ].
      simpl. intros H. injection H as -> Hrest.
      apply IH in Hrest. discriminate.
Qed.

(** ** [createRelease] *)

(** With arguments of their types, [createRelease] hands the release
    built from them to [releaseRepo.Add] once and returns the release
    as the repository left it and the error of the repository: the
    release is returned also when the write fails. *)
Theorem createRelease_writes_and_returns (api : controllerAPI) (args : arguments)
    (id : string) (artifacts : list string) (env meta : gmap string string)
    (processes : gmap string ProcessType) :
  stringArg args "id" = Return id ->
  stringListArg args "artifacts" = Return artifacts ->
  stringMapArg args "env" = Return env ->
  stringMapArg args "meta" = Return meta ->
  processesArg json args = inl processes ->
  let release := {| relID := id; relArtifactIDs := artifacts; relEnv := env;
                    relMeta := meta; relProcesses := processes |} in
  createReleaseResolve json api args
  = Run [ReleaseRepoAdd release]
      (Return (VPtr TRelease (fst (releaseRepoAdd api release)),
               snd (releaseRepoAdd api release))).
Proof.
  intros Hi Ha He Hm Hp release. unfold createReleaseResolve. rewrite Hp.
  unfold bind, lift. simpl. rewrite Hi. simpl. rewrite Ha. simpl.
  rewrite He. simpl. rewrite Hm. reflexivity.
Qed.

(** [createRelease] writes at most once, whatever the arguments. *)
Theorem createRelease_at_most_one_write (api : controllerAPI) (args : arguments) :
  calls (createReleaseResolve json api args) = [] \/
  exists release : Release ProcessType,
    calls (createReleaseResolve json api args) = [ReleaseRepoAdd release].
Proof.
  unfold createReleaseResolve, bind, lift. simpl.
  destruct (stringArg args "id"); simpl; [ | now left ].
  destruct (stringListArg args "artifacts"); simpl; [ | now left ].
  destruct (stringMapArg args "env"); simpl; [ | now left ].
  destruct (stringMapArg args "meta"); simpl; [ | now left ].
  destruct (processesArg json args); simpl; [ | now left ].
  right. now eexists.
Qed.

End Listing.

Section Lookups.

Variables (Fields ProcessType : Type).
Variable ErrNotFound : error.

Abbreviation value := (value Fields ProcessType).
Abbreviation controllerAPI := (controllerAPI Fields ProcessType).

(** The [app] field of an event is absent, and no repository is asked,
    when the event has no app ID; otherwise it is the answer of the one
    call [appRepo.Get] with the app ID of the event. *)
Theorem event_app_lookup (api : controllerAPI) (event : Event) :
  (evAppID event = "" ->
   eventAppResolve api (VPtr TEvent event) = Run [] (Return (VNil, None))) /\
  (evAppID event <> "" ->
   eventAppResolve api (VPtr TEvent event)
   = Run [AppRepoGet (evAppID event)]
       (Return (appRepoGet api (evAppID event)))).
Proof.
  unfold eventAppResolve, eventFieldResolveFunc, fieldResolveFunc.
  rewrite asPtr_VPtr. unfold eventApp. split; intros H.
  - now rewrite H.
  - now destruct (String.eqb_spec (evAppID event) "").
Qed.

(** The [app] field of a deployment asks [appRepo.Get] once: the error
    [ErrNotFound] gives an absent app without error, any other error is
    returned with what the repository answered, and an answer without
    error is returned as it is. *)
Theorem deployment_app_lookup (api : controllerAPI) (d : Deployment)
    (app : value) :
  (appRepoGet api (dAppID d) = (app, Some ErrNotFound) ->
   deploymentAppResolve ErrNotFound api (VPtr TDeployment d)
   = Run [AppRepoGet (dAppID d)] (Return (VNil, None))) /\
  (forall err : error,
      err <> ErrNotFound ->
      appRepoGet api (dAppID d) = (app, Some err) ->
      deploymentAppResolve ErrNotFound api (VPtr TDeployment d)
      = Run [AppRepoGet (dAppID d)] (Return (app, Some err))) /\
  (appRepoGet api (dAppID d) = (app, None) ->
   deploymentAppResolve ErrNotFound api (VPtr TDeployment d)
   = Run [AppRepoGet (dAppID d)] (Return (app, None))).
Proof.
  unfold deploymentAppResolve, deploymentFieldResolveFunc, fieldResolveFunc.
  rewrite asPtr_VPtr. unfold deploymentApp, bind, call. simpl.
  split; [ | split ].
  - intros ->. simpl.
    now destruct (error_eq_dec ErrNotFound ErrNotFound).
  - intros err Hne ->. simpl.
    now destruct (error_eq_dec err ErrNotFound).
  - now intros ->.
Qed.

(** ** The [remaining_apps] field of a release deletion *)

Lemma bind_call {A B : Type} (c : Call ProcessType) (answer : A)
    (k : A -> run ProcessType B) :
  bind (call c answer) k = Run (c :: calls (k answer)) (result (k answer)).
Proof. reflexivity. Qed.

Lemma bind_lift_return {A B : Type} (a : A) (k : A -> run ProcessType B) :
  bind (lift (Return a)) k = k a.
Proof. unfold bind, lift. simpl. now destruct (k a). Qed.

Lemma remainingAppsLoop_found (api : controllerAPI)
    (f : string -> App Fields) (ids : list string) :
  forall (i : nat) (apps : list (option (App Fields))),
    (forall id, In id ids -> appRepoGet api id = (VPtr TApp (f id), None)) ->
    (i + length ids <= length apps)%nat ->
    remainingAppsLoop api i ids apps
    = Run (map AppRepoGet ids)
        (Return (VPtrSlice TApp
                   (take i apps ++ map (fun id => Some (f id)) ids
                    ++ drop (i + length ids) apps)%list, None)).
Proof.
  induction ids as [ | id rest IH]; intros i apps Hfound Hle; simpl in *.
  - now rewrite Nat.add_0_r, take_drop.
  - rewrite bind_call, (Hfound id) by now left. cbn [fst snd].
    rewrite mustPtr_VPtr, bind_lift_return.
    destruct (Nat.ltb_spec i (length apps)); [ | lia ].
    rewrite IH; [ | intros id' Hin; apply Hfound; now right
                  | rewrite length_insert; lia ].
    simpl.
    rewrite (take_S_r _ _ (Some (f id))) by now apply list_lookup_insert_eq.
    rewrite take_insert_ge by lia.
    rewrite drop_insert_lt by lia.
    rewrite <- app_assoc. simpl.
    now replace (i + S (length rest))%nat with (S (i + length rest)) by lia.
Qed.

(** When the repository finds every remaining app, the field asks for
    each ID once, in order, and is the list of the apps found, in the
    order of the IDs. *)
Theorem remaining_apps_found (api : controllerAPI) (rd : ReleaseDeletion)
    (f : string -> App Fields) :
  (forall id, In id (rdRemainingApps rd) ->
              appRepoGet api id = (VPtr TApp (f id), None)) ->
  releaseDeletionRemainingApps api rd
  = Run (map AppRepoGet (rdRemainingApps rd))
      (Return (VPtrSlice TApp (map (fun id => Some (f id)) (rdRemainingApps rd)),
               None)).
Proof.
  intros Hfound. unfold releaseDeletionRemainingApps.
  rewrite (remainingAppsLoop_found api f _ 0 _ Hfound)
    by (rewrite length_replicate; simpl; lia).
  simpl. rewrite drop_replicate, Nat.sub_diag. simpl.
  now rewrite app_nil_r.
Qed.

Lemma remainingAppsLoop_error (api : controllerAPI)
    (f : string -> App Fields) (bad : string) (post : list string)
    (v : value) (err : error) (pre : list string) :
  forall (i : nat) (apps : list (option (App Fields))),
    (forall id, In id pre -> appRepoGet api id = (VPtr TApp (f id), None)) ->
    appRepoGet api bad = (v, Some err) ->
    (i + length pre <= length apps)%nat ->
    remainingAppsLoop api i (pre ++ bad :: post) apps
    = Run (map AppRepoGet (pre ++ [bad])) (Return (VNil, Some err)).
Proof.
  induction pre as [ | id rest IH]; intros i apps Hfound Hbad Hle; simpl in *.
  - unfold bind, call. simpl. now rewrite Hbad.
  - rewrite bind_call, (Hfound id) by now left. cbn [fst snd].
    rewrite mustPtr_VPtr, bind_lift_return.
    destruct (Nat.ltb_spec i (length apps)); [ | lia ].
    rewrite IH; [ reflexivity | intros id' Hin; apply Hfound; now right
                  | exact Hbad | rewrite length_insert; lia ].
Qed.

(** The field stops at the first remaining app the repository fails
    on: it has asked for the IDs up to and including that one, asks for
    none after it, and returns nil and the error. *)
Theorem remaining_apps_first_error (api : controllerAPI)
    (rd : ReleaseDeletion) (f : string -> App Fields)
    (pre post : list string) (bad : string) (v : value) (err : error) :
  rdRemainingApps rd = (pre ++ bad :: post)%list ->
  (forall id, In id pre -> appRepoGet api id = (VPtr TApp (f id), None)) ->
  appRepoGet api bad = (v, Some err) ->
  releaseDeletionRemainingApps api rd
  = Run (map AppRepoGet (pre ++ [bad])) (Return (VNil, Some err)).
Proof.
  intros Hids Hfound Hbad. unfold releaseDeletionRemainingApps. rewrite Hids.
  apply remainingAppsLoop_error with (f := f) (v := v);
    [ exact Hfound | exact Hbad | ].
  rewrite length_replicate, length_app. simpl. lia.
Qed.

End Lookups.

Section RootProperties.

Variables (Fields ProcessType : Type).

Abbreviation value := (value Fields ProcessType).
Abbreviation rootAPI := (rootAPI Fields ProcessType).
Abbreviation arguments := (Args Fields ProcessType).

(** ** [createArtifact] *)

(** [createArtifact] either panics on an argument of the wrong type,
    before any write, or makes the one call [artifactRepo.Add] and
    returns what it answers: the artifact and the error, both also
    when the write fails. *)
Theorem createArtifact_one_write_or_panic (api : rootAPI) (args : arguments) :
  (exists p : panic, createArtifactResolve api args = Trace [] (Panic p)) \/
  (exists artifact : NewArtifact,
      createArtifactResolve api args
      = Trace [ArtifactRepoAdd artifact]
          (Return (artifactRepoAdd api artifact))).
Proof.
  unfold createArtifactResolve, andThen, check, step. simpl.
  destruct (stringValue args "id"); simpl; [ | left; eauto ].
  destruct (stringValue args "type"); simpl; [ | left; eauto ].
  destruct (stringValue args "uri"); simpl; [ | left; eauto ].
  destruct (metaValue args "meta"); simpl; [ | left; eauto ].
  right. eauto.
Qed.

(** Given a type and a URI and neither ID nor metadata, the artifact
    handed to [artifactRepo.Add] has the empty ID and no metadata. *)
Theorem createArtifact_defaults (api : rootAPI) (args : arguments)
    (typ uri : string) :
  args !! "id" = None ->
  args !! "type" = Some (VString typ) ->
  args !! "uri" = Some (VString uri) ->
  args !! "meta" = None ->
  steps (createArtifactResolve api args)
  = [ArtifactRepoAdd {| artID := ""; artType := typ; artURI := uri;
                        artMeta := ∅ |}].
Proof.
  intros Hi Ht Hu Hm.
  unfold createArtifactResolve, andThen, check, step, stringValue, metaValue.
  simpl. rewrite Hi. simpl. rewrite Ht. simpl. rewrite Hu. simpl.
  rewrite Hm. reflexivity.
Qed.

(** ** [route] of [RootQuery] *)

Lemma cutSlash_no_slash (s : string) :
  ~ In "/"%char (list_ascii_of_string s) -> cutSlash s = (s, None).
Proof.
  induction s as [ | c s IH]; simpl; intros Hno; [ reflexivity | ].
  destruct (Ascii.eqb_spec c "/") as [-> | _]; [ now destruct Hno; left | ].
  rewrite IH; [ reflexivity | ]. intros Hin. apply Hno. now right.
Qed.

Lemma cutSlash_first_slash (before after : string) :
  ~ In "/"%char (list_ascii_of_string before) ->
  cutSlash (String.append before (String "/" after)) = (before, Some after).
Proof.
  induction before as [ | c s IH]; simpl; intros Hno; [ reflexivity | ].
  destruct (Ascii.eqb_spec c "/") as [-> | _]; [ now destruct Hno; left | ].
  rewrite IH; [ reflexivity | ]. intros Hin. apply Hno. now right.
Qed.

(** A route ID [typ/id] whose [typ] has no slash is looked up with
    the one call [api.getRoute(app, typ, id)]; what follows the first
    slash is the ID, further slashes included. *)
Theorem root_route_lookup (api : rootAPI) (args : arguments)
    (app typ id : string) :
  args !! "id" = Some (VString (String.append typ (String "/" id))) ->
  args !! "app" = Some (VString app) ->
  ~ In "/"%char (list_ascii_of_string typ) ->
  rootRouteResolve api args
  = Trace [GetRoute app typ id] (Return (getRoute api app typ id)).
Proof.
  intros Hi Ha Hno.
  unfold rootRouteResolve, andThen, check, step, mustString, SplitN2. simpl.
  rewrite Hi. simpl. rewrite Ha. simpl.
  now rewrite cutSlash_first_slash by exact Hno.
Qed.

(** A route ID without a slash makes the resolver panic on
    [parts[1]], before any call. *)
Theorem root_route_without_slash_panics (api : rootAPI) (args : arguments)
    (app id : string) :
  args !! "id" = Some (VString id) ->
  args !! "app" = Some (VString app) ->
  ~ In "/"%char (list_ascii_of_string id) ->
  rootRouteResolve api args = Trace [] (Panic IndexOutOfRange).
Proof.
  intros Hi Ha Hno.
  unfold rootRouteResolve, andThen, check, step, mustString, SplitN2. simpl.
  rewrite Hi. simpl. rewrite Ha. simpl.
  now rewrite cutSlash_no_slash by exact Hno.
Qed.

(** ** [formation] and [job] of [RootQuery] *)

(** When the app lookup fails, [formation] and [job] return nil and
    its error after that one call: the formation and job repositories
    are not asked. *)
Theorem root_lookup_stops_at_app_error (api : rootAPI) (args : arguments)
    (name : string) (v : value) (err : error) :
  args !! "app" = Some (VString name) ->
  appRepoGet (repositories api) name = (v, Some err) ->
  rootFormationResolve api args
  = Trace [Repo (AppRepoGet name)] (Return (VNil, Some err)) /\
  rootJobResolve api args
  = Trace [Repo (AppRepoGet name)] (Return (VNil, Some err)).
Proof.
  intros Ha Hget.
  unfold rootFormationResolve, rootJobResolve, andThen, check, step,
    mustString.
  simpl. rewrite Ha. simpl. rewrite Hget. simpl. split; reflexivity.
Qed.

(** [formation] looks the app up by the [app] argument and then the
    formation by the ID of the app found, not by the argument. *)
Theorem root_formation_by_app_id (api : rootAPI) (args : arguments)
    (name release : string) (app : App Fields) :
  args !! "app" = Some (VString name) ->
  args !! "release" = Some (VString release) ->
  appRepoGet (repositories api) name = (VPtr TApp app, None) ->
  rootFormationResolve api args
  = Trace [Repo (AppRepoGet name); FormationRepoGet (appID app) release]
      (Return (formationRepoGet api (appID app) release)).
Proof.
  intros Ha Hr Hget.
  unfold rootFormationResolve, andThen, check, step, mustString.
  simpl. rewrite Ha. simpl. rewrite Hget. simpl. rewrite Hr. reflexivity.
Qed.

(** [job] checks that the app exists and then looks the job up by its
    ID alone: the answer of the app lookup is not used. *)
Theorem root_job_lookup (api : rootAPI) (args : arguments)
    (name id : string) (v : value) :
  args !! "app" = Some (VString name) ->
  args !! "id" = Some (VString id) ->
  appRepoGet (repositories api) name = (v, None) ->
  rootJobResolve api args
  = Trace [Repo (AppRepoGet name); JobRepoGet id] (Return (jobRepoGet api id)).
Proof.
  intros Ha Hi Hget.
  unfold rootJobResolve, andThen, check, step, mustString.
  simpl. rewrite Ha. simpl. rewrite Hget. simpl. rewrite Hi. reflexivity.
Qed.

End RootProperties.

(** * The further properties at concrete inputs *)

Lemma pointer_types_decode_witness :
  In EventTypeResourceDeletion eventTypes /\
  exists t : GoType,
    decodeTarget EventTypeResourceDeletion = Some (NewPtr t) /\
    forall (data : RawMessage) (s : StructOf unit unit t),
      checkValid stubCodec data = None ->
      decode stubCodec t data = inl s ->
      decodeEventObjectData stubCodec EventTypeResourceDeletion data
      = (VPtr t s, None).
Proof.
  assert (Hin : In EventTypeResourceDeletion eventTypes)
    by (vm_compute; tauto).
  split; [ exact Hin | ].
  apply (pointer_types_decode stubCodec Hin); discriminate.
Defined.

Lemma release_deletion_app_id_witness :
  let event := {| evID := 42; evAppID := "a9";
                  evObjectType := EventTypeReleaseDeletion;
                  evObjectID := "r1"; evData := bytes "{r1,a2}" |} in
  eventDataResolve stubCodec stubAPI (VPtr TEvent event)
  = Run [] (Return
      (VPtr TReleaseDeletionEvent
         {| rdeReleaseDeletion :=
              Some {| rdAppID := "a2"; rdReleaseID := "r1";
                      rdRemainingApps := []; rdDeletedFiles := [] |};
            rdeError := "" |}, None)).
Proof.
  intros event.
  refine (release_deletion_app_id stubCodec stubAPI event
            (rde := {| rdeReleaseDeletion :=
                         Some {| rdAppID := "a2"; rdReleaseID := "r1";
                                 rdRemainingApps := []; rdDeletedFiles := [] |};
                       rdeError := "" |})
            eq_refl _ eq_refl).
  vm_compute; reflexivity.
Defined.

Lemma decode_error_is_returned_witness :
  let event := {| evID := 43; evAppID := "a1"; evObjectType := EventTypeApp;
                  evObjectID := "a1"; evData := bytes "[]" |} in
  eventDataResolve stubCodec stubAPI (VPtr TEvent event)
  = Run [] (Return (VNil, Some (JSONError "cannot unmarshal"))).
Proof.
  intros event.
  refine (decode_error_is_returned stubCodec stubAPI event _ _).
  - discriminate.
  - vm_compute; reflexivity.
Defined.

Lemma wrapped_resolver_skips_other_sources_witness :
  let event := {| evID := 1; evAppID := ""; evObjectType := EventTypeRoute;
                  evObjectID := ""; evData := [] |} in
  routeAppResolve "controller/apps/" stubAPI (VPtr TEvent event)
  = Run [] (Return (VNil, None)).
Proof.
  intros event.
  refine (proj1 (wrapped_resolver_skips_other_sources (t := TRoute)
                   (t' := TEvent) (routeApp "controller/apps/")
                   stubAPI event _)).
  discriminate.
Defined.

Lemma listArtifacts_full_map_witness :
  listArtifacts stubAPI ["a2"; "a1"]
  = Run [ArtifactRepoListIDs ["a2"; "a1"]]
      (Return ([Some tt; Some tt], None)).
Proof.
  refine (listArtifacts_full_map stubAPI ["a2"; "a1"]
            (m := {[ "a2" := Some tt; "a1" := Some tt ]}) _ _).
  - vm_compute; reflexivity.
  - vm_compute; lia.
Defined.

Lemma listArtifacts_repository_error_witness :
  listArtifacts (repositories stubRootAPI) ["a1"]
  = Run [ArtifactRepoListIDs ["a1"]]
      (Return ([], Some (RepoError "connection lost"))).
Proof.
  exact (listArtifacts_repository_error (repositories stubRootAPI) ["a1"]
           (m := ∅) eq_refl).
Defined.

Lemma events_integer_arguments_passed_witness :
  let args : Args unit unit :=
    {[ "before_id" := VInt 50; "since_id" := VInt 10; "count" := VInt 5 ]} in
  calls (listEvents stubAPI "a1" args)
  = [EventRepoListEvents "a1" [] "" (Some 50) (Some 10) 5].
Proof.
  intros args.
  refine (events_integer_arguments_passed stubAPI "a1" args
            (objectTypes := []) (objectID := "")
            eq_refl eq_refl eq_refl eq_refl eq_refl _ _); lia.
Defined.

Lemma events_without_filters_witness :
  calls (rootEventsResolve stubAPI ∅)
  = [EventRepoListEvents "" [] "" None None 0].
Proof.
  refine (events_without_filters stubAPI ∅ _).
  intros name. reflexivity.
Defined.

Lemma events_ill_typed_filter_panics_witness :
  let args : Args unit unit := {[ "object_types" := VString "app" ]} in
  listEvents stubAPI "a1" args = Run [] (Panic InterfaceConversion).
Proof.
  intros args.
  refine (proj1 (proj2 (events_ill_typed_filter_panics stubAPI args
                          (VString "app"))) "a1" eq_refl _).
  discriminate.
Defined.

Lemma createRelease_writes_and_returns_witness :
  let args : Args unit unit :=
    {[ "id" := VString "r1"; "artifacts" := VList [VString "a1"; VString "a2"] ]} in
  let release : Release unit :=
    {| relID := "r1"; relArtifactIDs := ["a1"; "a2"]; relEnv := ∅;
       relMeta := ∅; relProcesses := ∅ |} in
  createReleaseResolve stubCodec (repositories stubRootAPI) args
  = Run [ReleaseRepoAdd release]
      (Return (VPtr TRelease release, Some (RepoError "connection lost"))).
Proof.
  intros args release.
  exact (createRelease_writes_and_returns stubCodec (repositories stubRootAPI)
           args (id := "r1") (artifacts := ["a1"; "a2"]) (env := ∅)
           (meta := ∅) (processes := ∅)
           eq_refl eq_refl eq_refl eq_refl eq_refl).
Defined.

Lemma event_app_lookup_witness :
  let event := {| evID := 42; evAppID := "a1"; evObjectType := EventTypeApp;
                  evObjectID := "a1"; evData := [] |} in
  eventAppResolve stubAPI (VPtr TEvent event)
  = Run [AppRepoGet "a1"] (Return (appRepoGet stubAPI "a1")).
Proof.
  intros event.
  refine (proj2 (event_app_lookup stubAPI event) _). discriminate.
Defined.

Lemma deployment_app_lookup_witness :
  let d := {| dID := "d1"; dAppID := "gone"; dOldReleaseID := "r1";
              dNewReleaseID := "r2"; dStrategy := "all-at-once";
              dStatus := "complete"; dDeployTimeout := 30 |} in
  deploymentAppResolve (RepoError "not found") (repositories stubRootAPI)
    (VPtr TDeployment d)
  = Run [AppRepoGet "gone"] (Return (VNil, None)).
Proof.
  intros d.
  exact (proj1 (deployment_app_lookup (RepoError "not found")
                  (repositories stubRootAPI) d VNil) eq_refl).
Defined.

Lemma remaining_apps_found_witness :
  let rd := {| rdAppID := "a9"; rdReleaseID := "r1";
               rdRemainingApps := ["a1"; "a2"]; rdDeletedFiles := [] |} in
  releaseDeletionRemainingApps stubAPI rd
  = Run [AppRepoGet "a1"; AppRepoGet "a2"]
      (Return (VPtrSlice TApp [Some {| appID := "a1"; appFields := tt |};
                               Some {| appID := "a2"; appFields := tt |}],
               None)).
Proof.
  intros rd.
  refine (remaining_apps_found stubAPI rd
            (fun id => {| appID := id; appFields := tt |}) _).
  intros id _. reflexivity.
Defined.

Lemma remaining_apps_first_error_witness :
  let rd := {| rdAppID := "a9"; rdReleaseID := "r1";
               rdRemainingApps := ["web"; "gone"; "db"];
               rdDeletedFiles := [] |} in
  releaseDeletionRemainingApps (repositories stubRootAPI) rd
  = Run [AppRepoGet "web"; AppRepoGet "gone"]
      (Return (VNil, Some (RepoError "not found"))).
Proof.
  intros rd.
  refine (remaining_apps_first_error (repositories stubRootAPI) rd
            (fun name => {| appID := String.append "id-" name; appFields := tt |})
            ["web"] ["db"] "gone" (v := VNil) eq_refl _ eq_refl).
  intros id [<- | []]. reflexivity.
Defined.

Lemma createArtifact_defaults_witness :
  let args : Args unit unit :=
    {[ "type" := VString "docker"; "uri" := VString "https://example.com/image" ]} in
  steps (createArtifactResolve stubRootAPI args)
  = [ArtifactRepoAdd {| artID := ""; artType := "docker";
                        artURI := "https://example.com/image";
                        artMeta := ∅ |}].
Proof.
  intros args.
  exact (createArtifact_defaults stubRootAPI args
           eq_refl eq_refl eq_refl eq_refl).
Defined.

Lemma root_route_lookup_witness :
  let args : Args unit unit :=
    {[ "app" := VString "a1"; "id" := VString "http/abc/def" ]} in
  rootRouteResolve stubRootAPI args
  = Trace [GetRoute "a1" "http" "abc/def"]
      (Return (getRoute stubRootAPI "a1" "http" "abc/def")).
Proof.
  intros args.
  refine (root_route_lookup stubRootAPI args "http" "abc/def"
            eq_refl eq_refl _).
  vm_compute. intuition discriminate.
Defined.

Lemma root_route_without_slash_panics_witness :
  let args : Args unit unit :=
    {[ "app" := VString "a1"; "id" := VString "abc" ]} in
  rootRouteResolve stubRootAPI args = Trace [] (Panic IndexOutOfRange).
Proof.
  intros args.
  refine (root_route_without_slash_panics stubRootAPI args
            (app := "a1") (id := "abc") eq_refl eq_refl _).
  vm_compute. intuition discriminate.
Defined.

Lemma root_lookup_stops_at_app_error_witness :
  let args : Args unit unit :=
    {[ "app" := VString "gone"; "release" := VString "r1" ]} in
  rootFormationResolve stubRootAPI args
  = Trace [Repo (AppRepoGet "gone")]
      (Return (VNil, Some (RepoError "not found"))).
Proof.
  intros args.
  exact (proj1 (root_lookup_stops_at_app_error stubRootAPI args
                  (name := "gone") (v := VNil) eq_refl eq_refl)).
Defined.

Lemma root_formation_by_app_id_witness :
  let args : Args unit unit :=
    {[ "app" := VString "web"; "release" := VString "r1" ]} in
  rootFormationResolve stubRootAPI args
  = Trace [Repo (AppRepoGet "web"); FormationRepoGet "id-web" "r1"]
      (Return (formationRepoGet stubRootAPI "id-web" "r1")).
Proof.
  intros args.
  exact (root_formation_by_app_id stubRootAPI args
           (name := "web") (release := "r1")
           (app := {| appID := "id-web"; appFields := tt |})
           eq_refl eq_refl eq_refl).
Defined.

Lemma root_job_lookup_witness :
  let args : Args unit unit :=
    {[ "app" := VString "web"; "id" := VString "j1" ]} in
  rootJobResolve stubRootAPI args
  = Trace [Repo (AppRepoGet "web"); JobRepoGet "j1"]
      (Return (jobRepoGet stubRootAPI "j1")).
Proof.
  intros args.
  exact (root_job_lookup stubRootAPI args (name := "web") (id := "j1")
           (v := VPtr TApp {| appID := "id-web"; appFields := tt |})
           eq_refl eq_refl eq_refl).
Defined.

(** * Requests with arguments of the types the schema declares *)

Section TypedArguments.

Variables (Fields ProcessType : Type).
Variable json : jsonCodec Fields ProcessType.

Abbreviation value := (value Fields ProcessType).
Abbreviation controllerAPI := (controllerAPI Fields ProcessType).
Abbreviation arguments := (Args Fields ProcessType).

Lemma stringsOf_map_VString (l : list string) :
  stringsOf (map VString l : list value) = Return l.
Proof. induction l as [ | s l IH]; simpl; [ | rewrite IH ]; reflexivity. Qed.

Lemma stringListArg_typed (args : arguments) (name : string)
    (l : option (list string)) :
  args !! name = (fun l => VList (map VString l)) <$> l ->
  stringListArg args name = Return (default [] l).
Proof.
  intros H. unfold stringListArg. rewrite H.
  destruct l as [l | ]; simpl; [ apply stringsOf_map_VString | reflexivity ].
Qed.

Lemma stringArg_typed (args : arguments) (name : string) (s : option string) :
  args !! name = VString <$> s -> stringArg args name = Return (default "" s).
Proof.
  intros H. unfold stringArg. rewrite H. now destruct s.
Qed.




(** C8: a present [env] that is not a [map[string]string] makes
    [createRelease] panic in its type assertion, and so does such a
    [meta] when [env] is absent, whatever the [processes] argument is:
    the resolver does not get as far as the decode error of
    [processes].  Nothing is written. *)
Theorem createRelease_present_env_panics (api : controllerAPI)
    (args : arguments) (v : value)
    (id : option string) (artifacts : option (list string)) :
  args !! "id" = VString <$> id ->
  args !! "artifacts" = (fun l => VList (map VString l)) <$> artifacts ->
  (forall m, v <> VStringMap m) ->
  (args !! "env" = Some v ->
   createReleaseResolve json api args = Run [] (Panic InterfaceConversion)) /\
  (args !! "env" = None -> args !! "meta" = Some v ->
   createReleaseResolve json api args = Run [] (Panic InterfaceConversion)).
Proof.
  intros Hi Ha Hv.
  unfold createReleaseResolve.
  apply stringArg_typed in Hi. apply stringListArg_typed in Ha.
  rewrite Hi, Ha.
  unfold bind, lift, stringMapArg. simpl. split.
  - intros He. rewrite He. destruct v; try reflexivity. now destruct (Hv m).
  - intros He Hm. rewrite He. simpl. rewrite Hm.
    destruct v; try reflexivity. now destruct (Hv m).
Qed.

End TypedArguments.



(** C8 at an [env] given as a string and a [processes] argument that
    fails to deserialize. *)
Lemma createRelease_present_env_panics_witness :
  let args : Args unit unit :=
    {[ "id" := VString "r1"; "env" := VString "production";
       "processes" := VString "web" ]} in
  processesArg stubCodec args = inr (JSONError "cannot unmarshal array") /\
  createReleaseResolve stubCodec stubAPI args
  = Run [] (Panic InterfaceConversion).
Proof.
  intros args. split; [ vm_compute; reflexivity | ].
  refine (proj1 (createRelease_present_env_panics stubCodec stubAPI args
                   (v := VString "production") (Some "r1") None
                   eq_refl eq_refl _) eq_refl).
  discriminate.
Defined.
